(** * The retry unit of synthetism/retry, embedded and checked against its specification

    The source is the TypeScript class [Retry] (retry.unit.ts), with the
    flaky API that the demonstration wraps in it (demo/retry-demo.ts).  The
    embedding keeps the names of the source.  Conventions:

    - a field of the policy is the rational number it is configured with
      ([Q]); the arithmetic of [calculateDelay] is that of IEEE-754 doubles
      ([number]): every operation rounds to the nearest double, ties to
      even, and can give NaN or an infinity.  Counters and attempt numbers,
      which the code only ever moves by integer steps, are integers ([Z]);
    - a JS string is a [string] of 8-bit characters; [toLowerCase] maps the
      ASCII capitals, which is what the JS function does on ASCII text;
    - [Set<string>] is the list of its elements in insertion order, without
      repetition;
    - the statistics object ([State] of the package @synet/state, used only
      through [get] and [set]) is a finite map from keys to numbers;
    - effects (the statistics store, the state captured by the operation,
      [Math.random], [sleep]) are threaded through a small state monad over
      a [World], which also logs the observable events of a call and says
      what the engine returns for the powers [base ** exponent], which
      ECMAScript leaves implementation-approximated;
    - an operation works on what its own closure holds: it does not touch
      the statistics object, and calls of [retry] do not interleave;
    - [Date.now()] and the fields [totalDelay] and [timestamp] computed from
      it are left out. *)

From Stdlib Require Import ZArith QArith Qround Qminmax Qabs Qpower String Ascii List Lia Bool.
From Stdlib Require Import DecimalString Lqa.
From Stdlib Require SpecFloat.
From stdpp Require Import gmap strings.
Import ListNotations.

Local Open Scope Z_scope.

(** ** Numbers *)

(** A JS number, that is an IEEE-754 double: NaN, an infinity, or a finite
    double, given by its exact value.  The two zeros are one value: the
    result of [calculateDelay] goes through [Math.max(0, _)], which returns
    0 for either of them, and no operand of it is divided by. *)
Inductive number :=
| NaN
| Infinity (negative : bool)
| Finite (value : Q).

(** [n / d * 2^s] as a fraction. *)
Definition scaled (n d s : Z) : Z * Z :=
  if 0 <=? s then (n * 2 ^ s, d) else (n, d * 2 ^ (- s)).

(** The integer nearest to [n / d], the even one of two equally near. *)
Definition nearest_even (n d : Z) : Z :=
  let k := n / d in
  match 2 * (n mod d) ?= d with
  | Lt => k
  | Gt => k + 1
  | Eq => if Z.even k then k else k + 1
  end.

(** The binary exponent of [n / d]: the [e] with [2^e <= n / d < 2^(e+1)]. *)
Definition binade (n d : Z) : Z :=
  let k := Z.log2 n - Z.log2 d in
  let (N, D) := scaled n d (- k) in
  if D <=? N then k else k - 1.

(** Rounding of a real result to a double, to nearest and ties to even:
    53 significant bits, the least exponent of a unit in the last place
    -1074 (below it the doubles are subnormal), and an infinity once the
    rounded value reaches [2^1024]. *)
Definition round (q : Q) : number :=
  let q := Qred q in
  let n := Z.abs (Qnum q) in
  let d := Zpos (Qden q) in
  if n =? 0 then Finite 0 else
  let u := Z.max (binade n d - 52) (-1074) in
  let (N, D) := scaled n d (- u) in
  let m := nearest_even N D in
  if 2 ^ (1024 - u) <=? m then Infinity (Qnum q <? 0)
  else Finite (Qred (inject_Z (Z.sgn (Qnum q) * m) * 2 ^ u)).

(** The double that a numeric literal, or a rational field of the policy,
    denotes. *)
Definition Number (q : Q) : number := round q.

Definition is_zero (q : Q) : bool := Qnum q =? 0.
Definition is_negative (q : Q) : bool := Qnum q <? 0.

(** [x * y] *)
Definition Number_multiply (x y : number) : number :=
  match x, y with
  | NaN, _ | _, NaN => NaN
  | Infinity a, Infinity b => Infinity (xorb a b)
  | Infinity a, Finite q | Finite q, Infinity a =>
    if is_zero q then NaN else Infinity (xorb a (is_negative q))
  | Finite p, Finite q => round (p * q)
  end.

(** [x + y] *)
Definition Number_add (x y : number) : number :=
  match x, y with
  | NaN, _ | _, NaN => NaN
  | Infinity a, Infinity b => if Bool.eqb a b then Infinity a else NaN
  | Infinity a, Finite _ | Finite _, Infinity a => Infinity a
  | Finite p, Finite q => round (p + q)
  end.

(** [- x] *)
Definition Number_unaryMinus (x : number) : number :=
  match x with
  | NaN => NaN
  | Infinity a => Infinity (negb a)
  | Finite q => Finite (- q)
  end.

(** [x - y] *)
Definition Number_subtract (x y : number) : number :=
  Number_add x (Number_unaryMinus y).

(** [base ** exponent] for an integer [exponent].  ECMAScript fixes the
    result for an exponent 0 and for a base that is NaN, infinite or zero;
    for the rest it asks for "an implementation-approximated Number value
    representing the result of raising base to the power exponent", which
    is what [approximate] returns. *)
Definition Number_exponentiate (approximate : Q -> Z -> number)
    (base : number) (exponent : Z) : number :=
  if exponent =? 0 then Finite 1 else
  match base with
  | NaN => NaN
  | Infinity a =>
    if 0 <? exponent then Infinity (a && Z.odd exponent) else Finite 0
  | Finite q =>
    if is_zero q then (if 0 <? exponent then Finite 0 else Infinity false)
    else approximate q exponent
  end.

(** The best approximation: the double nearest to the exact power. *)
Definition nearest_power (base : Q) (exponent : Z) : number :=
  round (base ^ exponent).

(** What an engine returns: the nearest double, but for the powers listed
    in [deviations], each with the double returned for it. *)
Definition engine_power (deviations : list (Q * Z * number)) (base : Q) (exponent : Z)
  : number :=
  match List.find (fun d => Qeq_bool (fst (fst d)) base && (snd (fst d) =? exponent))
                  deviations with
  | Some d => snd d
  | None => nearest_power base exponent
  end.

(** [Math.min(x, y)] *)
Definition Math_min (x y : number) : number :=
  match x, y with
  | NaN, _ | _, NaN => NaN
  | Infinity true, _ | _, Infinity true => Infinity true
  | Infinity false, z | z, Infinity false => z
  | Finite p, Finite q => if Qle_bool p q then Finite p else Finite q
  end.

(** [Math.max(x, y)] *)
Definition Math_max (x y : number) : number :=
  match x, y with
  | NaN, _ | _, NaN => NaN
  | Infinity false, _ | _, Infinity false => Infinity false
  | Infinity true, z | z, Infinity true => z
  | Finite p, Finite q => if Qle_bool p q then Finite q else Finite p
  end.

(** [Math.floor(x)]; the floor of a finite double is a double. *)
Definition Math_floor (x : number) : number :=
  match x with
  | Finite q => Finite (inject_Z (Qfloor q))
  | _ => x
  end.

Local Open Scope string_scope.

(** ** Strings *)

(** [String.prototype.toLowerCase] on ASCII text. *)
Definition lower_ascii (c : ascii) : ascii :=
  let n := nat_of_ascii c in
  if ((65 <=? n) && (n <=? 90))%nat then ascii_of_nat (n + 32) else c.

Fixpoint toLowerCase (s : string) : string :=
  match s with
  | EmptyString => EmptyString
  | String c s' => String (lower_ascii c) (toLowerCase s')
  end.

(** [s.includes(p)]: [p] occurs in [s] as a contiguous substring. *)
Fixpoint includes (s p : string) : bool :=
  String.prefix p s ||
  match s with
  | EmptyString => false
  | String _ s' => includes s' p
  end.

(** [xs.join(sep)]. *)
Fixpoint join (sep : string) (xs : list string) : string :=
  match xs with
  | [] => ""
  | [x] => x
  | x :: rest => x ++ sep ++ join sep rest
  end.

(** Template-literal rendering of an integer. *)
Definition string_of_Z (z : Z) : string := NilEmpty.string_of_int (Z.to_int z).

(** ** Errors *)

(** An [Error] object: its message, and the [code] property that Node's
    system errors carry ([undefined] is [None]). *)
Record Error := mkError { message : string; code : option string }.

(** What a rejected operation throws: an [Error], or any other value, of
    which only [String(value)] is kept. *)
Inductive Thrown :=
| ThrownError (e : Error)
| ThrownValue (rendered : string).

(** [error instanceof Error ? error : new Error(String(error))] *)
Definition to_Error (t : Thrown) : Error :=
  match t with
  | ThrownError e => e
  | ThrownValue s => mkError s None
  end.

(** ** Configuration *)

(** [RetryConfig]: every field optional. *)
Record RetryConfig := mkRetryConfig {
  cfg_maxAttempts : option Q;
  cfg_baseDelay : option Q;
  cfg_maxDelay : option Q;
  cfg_jitter : option bool;
  cfg_backoffMultiplier : option Q;
  cfg_retryableErrors : option (list string)
}.

Definition no_options : RetryConfig :=
  mkRetryConfig None None None None None None.

(** [Required<RetryConfig>], the result of [mergeOptions]. *)
Record MergedConfig := mkMergedConfig {
  m_maxAttempts : Q;
  m_baseDelay : Q;
  m_maxDelay : Q;
  m_jitter : bool;
  m_backoffMultiplier : Q;
  m_retryableErrors : list string
}.

Record DNA := mkDNA { dna_id : string; dna_version : string }.

(** [RetryProps], without the reference to the statistics object, which
    lives in the [World]. *)
Record RetryProps := mkRetryProps {
  dna : DNA;
  maxAttempts : Q;
  baseDelay : Q;
  maxDelay : Q;
  jitter : bool;
  backoffMultiplier : Q;
  retryableErrors : list string
}.

(** [new Set(xs)]: first occurrences, in order. *)
Fixpoint Set_of (xs : list string) : list string :=
  match xs with
  | [] => []
  | x :: rest => x :: List.filter (fun y => negb (String.eqb x y)) (Set_of rest)
  end.

(** [set.has(x)] *)
Definition has (set : list string) (x : string) : bool :=
  existsb (String.eqb x) set.

(** [a ?? b] *)
Definition nullish {A} (a : option A) (b : A) : A :=
  match a with
  | Some v => v
  | None => b
  end.
Infix "??" := nullish (at level 45, left associativity).

(** The five keys that [create] puts into the statistics object. *)
Definition initialState : gmap string Z :=
  <["totalOperations" := 0]>
  (<["totalRetries" := 0]>
  (<["successfulOperations" := 0]>
  (<["failedOperations" := 0]>
  (<["averageAttempts" := 0]> ∅)))).

(** [Retry.create(config)]; the statistics object starts as [initialState]. *)
Definition create (config : RetryConfig) : RetryProps :=
  {| dna := mkDNA "retry" "1.0.0";
     maxAttempts := cfg_maxAttempts config ?? 3%Q;
     baseDelay := cfg_baseDelay config ?? 100%Q;
     maxDelay := cfg_maxDelay config ?? 5000%Q;
     jitter := cfg_jitter config ?? true;
     backoffMultiplier := cfg_backoffMultiplier config ?? 2%Q;
     retryableErrors :=
       Set_of (cfg_retryableErrors config
               ?? ["ECONNRESET"; "ETIMEDOUT"; "ENOTFOUND"; "EHOSTUNREACH"]) |}.

(** [mergeOptions(customOptions)]; [customOptions?.f] of an absent
    [customOptions] is [undefined]. *)
Definition mergeOptions (self : RetryProps) (customOptions : option RetryConfig)
  : MergedConfig :=
  let opt {A} (f : RetryConfig -> option A) : option A :=
    match customOptions with
    | Some o => f o
    | None => None
    end in
  {| m_maxAttempts := opt cfg_maxAttempts ?? maxAttempts self;
     m_baseDelay := opt cfg_baseDelay ?? baseDelay self;
     m_maxDelay := opt cfg_maxDelay ?? maxDelay self;
     m_jitter := opt cfg_jitter ?? jitter self;
     m_backoffMultiplier := opt cfg_backoffMultiplier ?? backoffMultiplier self;
     m_retryableErrors := opt cfg_retryableErrors ?? retryableErrors self |}.

(** ** Classifier *)

Definition retryablePatterns : list string :=
  [ "network"; "timeout"; "connection"; "reset"; "refused";
    "unreachable"; "temporarily"; "temporary"; "rate limit"; "5"; "429";
    "502"; "503"; "504"; "unavailable"; "service" ].

(** [code && set.has(code)]: the empty string is falsy, like [undefined]. *)
Definition truthy_string (s : string) : bool := negb (String.eqb s "").

Definition isRetryableError (self : RetryProps) (error : Error) : bool :=
  let message := toLowerCase (message error) in
  let code := code error in
  if match code with
     | Some c => truthy_string c && has (retryableErrors self) c
     | None => false
     end
  then true
  else existsb (fun pattern => includes message pattern) retryablePatterns.

(** ** The world a call runs in *)

(** Observable events of a call, in the order in which they happen. *)
Inductive event :=
| EvSet (key : string) (value : Z)   (* state.set(key, value) *)
| EvCall                             (* operation() *)
| EvSleep (ms : number).             (* sleep(ms) *)

(** Computations over a world [W]: a state monad. *)
Definition M (W A : Type) := W -> A * W.

Definition ret {W A} (a : A) : M W A := fun w => (a, w).

Definition bind {W A B} (m : M W A) (k : A -> M W B) : M W B :=
  fun w => let (a, w') := m w in k a w'.

Notation "'let*' x ':=' m 'in' k" := (bind m (fun x => k))
  (at level 10, x name, m at level 100, k at level 200).
Notation "m ';;;' k" := (bind m (fun _ => k))
  (at level 100, k at level 200, right associativity).

Section Engine.

(** [St] is the state captured by the operation's closure, [T] the type of
    its result. *)
Context {St T : Type}.

Record World := mkWorld {
  store : gmap string Z;     (* the statistics object *)
  opstate : St;              (* what the operation's closure holds *)
  random : nat -> Q;         (* the values Math.random() will return *)
  power : list (Q * Z * number);
                             (* the powers base ** exponent that the engine does
                                not round to the nearest double, with its results *)
  draws : nat;               (* how many of them were consumed *)
  trace : list event         (* events so far, oldest first *)
}.

(** An operation [() => Promise<T>]: settles with a value or a thrown
    value, and may change what its closure holds. *)
Definition Operation := St -> (T + Thrown) * St.

(** [state.get<number>(key)] *)
Definition state_get (key : string) : M World (option Z) :=
  fun w => (store w !! key, w).

(** [state.set(key, value)] *)
Definition state_set (key : string) (value : Z) : M World unit :=
  fun w => (tt, mkWorld (<[key := value]> (store w)) (opstate w) (random w) (power w)
                        (draws w) (trace w ++ [EvSet key value])%list).

(** [Math.random()] *)
Definition Math_random : M World number :=
  fun w => (Number (random w (draws w)),
            mkWorld (store w) (opstate w) (random w) (power w) (S (draws w)) (trace w)).

(** [await this.sleep(ms)] *)
Definition sleep (ms : number) : M World unit :=
  fun w => (tt, mkWorld (store w) (opstate w) (random w) (power w) (draws w)
                        (trace w ++ [EvSleep ms])%list).

(** [await operation()], with the rejection caught. *)
Definition call (operation : Operation) : M World (T + Thrown) :=
  fun w => let (r, s') := operation (opstate w) in
           (r, mkWorld (store w) s' (random w) (power w) (draws w) (trace w ++ [EvCall])%list).

(** ** Delay calculator *)

(** [base ** exponent], as the engine of the world computes it. *)
Definition exponentiate (base : number) (exponent : Z) : M World number :=
  fun w => (Number_exponentiate (engine_power (power w)) base exponent, w).

(** [calculateDelay(attempt, config)].  The body reads [this.props]; the
    parameter [config] is not used. *)
Definition calculateDelay (self : RetryProps) (attempt : Z) (config : MergedConfig)
  : M World number :=
  let* factor := exponentiate (Number (backoffMultiplier self)) (attempt - 1) in
  let delay := Number_multiply (Number (baseDelay self)) factor in
  let delay := Math_min delay (Number (maxDelay self)) in
  let* delay := (if jitter self then
                   let jitterAmount := Number_multiply delay (Number (1 # 10)) in
                   let* r := Math_random in
                   ret (Number_add delay
                          (Number_multiply (Number_subtract r (Number (1 # 2)))
                                           jitterAmount))
                 else ret delay) in
  ret (Math_max (Finite 0) (Math_floor delay)).

(** ** Executor *)

Record RetryResult := mkRetryResult {
  result : T;
  attempts : Z;
  errors : list Error;
  success : bool
}.

(** How the promise returned by [retry] settles. *)
Inductive Settled :=
| Resolved (r : RetryResult)
| Rejected (e : Error).

(** The three template literals of the [throw] statements. *)
Definition exhausted_message (self : RetryProps) (attempt : Z) (err : Error)
    (errors : list Error) : string :=
  "[" ++ dna_id (dna self) ++ "] Operation failed after " ++ string_of_Z attempt
  ++ " attempts. Last error: " ++ message err
  ++ ". All errors: " ++ join ", " (map message errors).

Definition non_retryable_message (self : RetryProps) (err : Error) : string :=
  "[" ++ dna_id (dna self) ++ "] Non-retryable error: " ++ message err.

Definition unexpected_message (self : RetryProps) : string :=
  "[" ++ dna_id (dna self) ++ "] Unexpected retry loop completion".

(** The [for] loop of [retry], from the test [attempt <= config.maxAttempts]
    on.  [fuel] bounds the number of iterations; [retry] supplies enough
    ([retry_loop_fuel]).  [None] is "out of fuel". *)
Fixpoint retry_loop (self : RetryProps) (operation : Operation) (config : MergedConfig)
    (fuel : nat) (attempt : Z) (errors : list Error) : M World (option Settled) :=
  match fuel with
  | O => ret None
  | S fuel' =>
    if Qle_bool (inject_Z attempt) (m_maxAttempts config) then
      let* r := call operation in
      match r with
      | inl result =>
        let* successfulOperations := state_get "successfulOperations" in
        let* totalRetries := state_get "totalRetries" in
        state_set "successfulOperations" ((successfulOperations ?? 0) + 1) ;;;
        state_set "totalRetries" ((totalRetries ?? 0) + (attempt - 1)) ;;;
        ret (Some (Resolved (mkRetryResult result attempt errors true)))
      | inr error =>
        let err := to_Error error in
        let errors := (errors ++ [err])%list in
        if Qeq_bool (inject_Z attempt) (m_maxAttempts config) then
          let* failedOperations := state_get "failedOperations" in
          let* totalRetries := state_get "totalRetries" in
          state_set "failedOperations" ((failedOperations ?? 0) + 1) ;;;
          state_set "totalRetries" ((totalRetries ?? 0) + (attempt - 1)) ;;;
          ret (Some (Rejected
                 (mkError (exhausted_message self attempt err errors) None)))
        else if negb (isRetryableError self err) then
          let* failedOperations := state_get "failedOperations" in
          let* totalRetries := state_get "totalRetries" in
          state_set "failedOperations" ((failedOperations ?? 0) + 1) ;;;
          state_set "totalRetries" ((totalRetries ?? 0) + (attempt - 1)) ;;;
          ret (Some (Rejected (mkError (non_retryable_message self err) None)))
        else
          let* delay := calculateDelay self attempt config in
          sleep delay ;;;
          retry_loop self operation config fuel' (attempt + 1) errors
      end
    else
      ret (Some (Rejected (mkError (unexpected_message self) None)))
  end.

(** Iterations the loop can need: one per integer in [1, maxAttempts], and
    the failing test that ends it. *)
Definition retry_fuel (config : MergedConfig) : nat :=
  S (Z.to_nat (Qfloor (m_maxAttempts config))).

(** [retry(operation, customOptions)] *)
Definition retry (self : RetryProps) (operation : Operation)
    (customOptions : option RetryConfig) : M World (option Settled) :=
  let errors : list Error := [] in
  let config := mergeOptions self customOptions in
  let* totalOperations := state_get "totalOperations" in
  state_set "totalOperations" ((totalOperations ?? 0) + 1) ;;;
  retry_loop self operation config (retry_fuel config) 1 errors.

(** ** Statistics *)

Record StatsConfig := mkStatsConfig {
  sc_maxAttempts : Q;
  sc_baseDelay : Q;
  sc_maxDelay : Q;
  sc_jitter : bool;
  sc_backoffMultiplier : Q;
  sc_retryableErrors : list string
}.

Record RetryStats := mkRetryStats {
  totalOperations : Z;
  totalRetries : Z;
  successfulOperations : Z;
  failedOperations : Z;
  averageAttempts : Q;
  successRate : Q;
  config : StatsConfig
}.

(** [a || b] on a number that may be [undefined]: 0 is falsy. *)
Definition or_else (a : option Z) (b : Z) : Z :=
  match a with
  | Some 0 | None => b
  | Some v => v
  end.

(** [getStats()] *)
Definition getStats (self : RetryProps) : M World RetryStats :=
  let* successfulOperations := state_get "successfulOperations" in
  let* failedOperations := state_get "failedOperations" in
  let* totalRetries := state_get "totalRetries" in
  let* averageAttempts := state_get "averageAttempts" in
  let* totalOperations := state_get "totalOperations" in
  let* s := state_get "successfulOperations" in
  let* t := state_get "totalOperations" in
  ret {| successfulOperations := successfulOperations ?? 0;
         failedOperations := failedOperations ?? 0;
         totalRetries := totalRetries ?? 0;
         averageAttempts := inject_Z (averageAttempts ?? 0);
         totalOperations := totalOperations ?? 0;
         successRate := (inject_Z (or_else s 0) / inject_Z (or_else t 1))%Q;
         config := {| sc_maxAttempts := maxAttempts self;
                      sc_baseDelay := baseDelay self;
                      sc_maxDelay := maxDelay self;
                      sc_jitter := jitter self;
                      sc_backoffMultiplier := backoffMultiplier self;
                      sc_retryableErrors := retryableErrors self |} |}.

End Engine.

(** ** The other [getStats] of the repository (src/retry.unit.ts)

    The repository has a second copy of the class, whose [retry],
    [isRetryableError], [calculateDelay] and [mergeOptions] are the same as
    above, and whose [getStats] computes the derived fields instead of
    reading them. *)
Module RetryUnitTs.

Record Configuration := mkConfiguration {
  c_maxAttempts : Q;
  c_baseDelay : Q;
  c_maxDelay : Q;
  c_jitter : bool;
  c_backoffMultiplier : Q
}.

Record Stats := mkStats {
  totalOperations : Z;
  totalRetries : Z;
  successfulOperations : Z;
  failedOperations : Z;
  successRate : Q;
  averageAttempts : Q;
  configuration : Configuration
}.

Definition getStats {St : Type} (self : RetryProps) : M (@World St) Stats :=
  let* totalOperations := state_get "totalOperations" in
  let* totalRetries := state_get "totalRetries" in
  let* successfulOperations := state_get "successfulOperations" in
  let* failedOperations := state_get "failedOperations" in
  let totalOperations := totalOperations ?? 0 in
  let totalRetries := totalRetries ?? 0 in
  let successfulOperations := successfulOperations ?? 0 in
  let failedOperations := failedOperations ?? 0 in
  let averageAttempts :=
    if (0 <? totalOperations)%Z
    then (inject_Z (totalOperations + totalRetries) / inject_Z totalOperations)%Q
    else 0%Q in
  ret {| totalOperations := totalOperations;
         totalRetries := totalRetries;
         successfulOperations := successfulOperations;
         failedOperations := failedOperations;
         successRate :=
           if (0 <? totalOperations)%Z
           then (inject_Z successfulOperations / inject_Z totalOperations)%Q
           else 0%Q;
         averageAttempts := averageAttempts;
         configuration := {| c_maxAttempts := maxAttempts self;
                             c_baseDelay := baseDelay self;
                             c_maxDelay := maxDelay self;
                             c_jitter := jitter self;
                             c_backoffMultiplier := backoffMultiplier self |} |}.

End RetryUnitTs.

(** ** The flaky API of the demonstration (demo/retry-demo.ts)

    [MockFlakeyAPI] is the operation that the demonstration wraps in
    [retry].  Its [console.log] lines, the simulated network delay and the
    [timestamp] of its response are left out.  The numbers it gets from
    [Math.random] are given as a sequence of their own (which numbers of
    the generator they are depends on how the calls interleave with the
    jitter draws of [retry]); the state of the operation is the object
    together with how many of them it has consumed. *)

Record MockApiResponse := mkMockApiResponse {
  data : string;
  response_attempt : Z      (* the field [attempt] *)
}.

Record MockFlakeyAPI := mkMockFlakeyAPI {
  callCount : Z;
  failureRate : Q;
  serviceName : string
}.

(** [new MockFlakeyAPI(serviceName, failureRate = 0.7)] *)
Definition new_MockFlakeyAPI (serviceName : string) (failureRate : option Q)
  : MockFlakeyAPI :=
  mkMockFlakeyAPI 0 (failureRate ?? (7 # 10)) serviceName.

Definition errorTypes : list (string * option string) :=
  [ ("Connection timeout", Some "ETIMEDOUT");
    ("Network unreachable", Some "EHOSTUNREACH");
    ("Connection reset", Some "ECONNRESET");
    ("Rate limit exceeded", Some "RATE_LIMIT");
    ("Service temporarily unavailable", None) ].

(** [errorTypes[i]] for an integer [i]; [undefined] out of range. *)
Definition errorType_at (i : Z) : option (string * option string) :=
  if (i <? 0)%Z then None else nth_error errorTypes (Z.to_nat i).

(** [fetchData()].  Of the three draws of an invocation the first is the
    simulated network delay, the second decides on failure, and the third,
    drawn only on failure, selects the error.  Every code of the table is
    a non-empty string, so [if (errorType.code)] keeps it.  Reading
    [message] of an [undefined] error type throws the [TypeError] of V8. *)
Definition fetchData (rnd : nat -> Q)
  : @Operation (MockFlakeyAPI * nat) MockApiResponse :=
  fun '(this, k) =>
    let this := mkMockFlakeyAPI (callCount this + 1) (failureRate this)
                                (serviceName this) in
    if negb (Qle_bool (failureRate this) (rnd (k + 1)%nat)) then
      let errorType :=
        errorType_at (Qfloor (rnd (k + 2)%nat
                              * inject_Z (Z.of_nat (length errorTypes)))) in
      match errorType with
      | Some (msg, errcode) =>
        (inr (ThrownError (mkError (serviceName this ++ ": " ++ msg) errcode)),
         (this, (k + 3)%nat))
      | None =>
        (inr (ThrownError
                (mkError "Cannot read properties of undefined (reading 'message')"
                         None)),
         (this, (k + 3)%nat))
      end
    else
      (inl {| data := "Success from " ++ serviceName this;
              response_attempt := callCount this |},
       (this, (k + 2)%nat)).

(** [reset()] *)
Definition reset (this : MockFlakeyAPI) : MockFlakeyAPI :=
  mkMockFlakeyAPI 0 (failureRate this) (serviceName this).

(** ** Vocabulary of the specification *)

(** [p] occurs in [s]. *)
Definition contains (s p : string) : Prop := exists a b, s = a ++ p ++ b.

(** The error exposes a code that is a member of the retryable codes. *)
Definition code_listed (self : RetryProps) (e : Error) : Prop :=
  exists c, code e = Some c /\ In c (retryableErrors self).

(** The lowercased message contains one of the fixed keywords. *)
Definition message_matches (e : Error) : Prop :=
  exists p, In p retryablePatterns /\ contains (toLowerCase (message e)) p.

(** The un-jittered delay before it is floored,
    [min(baseDelay * backoffMultiplier^(attempt-1), maxDelay)], as a real
    number. *)
Definition clamped (self : RetryProps) (attempt : Z) : Q :=
  Qmin (baseDelay self * backoffMultiplier self ^ (attempt - 1))%Q (maxDelay self).

(** The same value as the code computes it, in doubles, on an engine with
    the powers [engine]. *)
Definition unjittered (engine : Q -> Z -> number) (self : RetryProps) (attempt : Z)
  : number :=
  Math_min (Number_multiply (Number (baseDelay self))
              (Number_exponentiate engine (Number (backoffMultiplier self))
                                   (attempt - 1)))
           (Number (maxDelay self)).

(** The jittered value of the clamped value [c] at the draw [r], as the
    code computes it: [c + (r - 0.5) * (c * 0.1)]. *)
Definition jittered (c r : number) : number :=
  Number_add c (Number_multiply (Number_subtract r (Number (1 # 2)))
                                (Number_multiply c (Number (1 # 10)))).

(** [Math.max(0, Math.floor(x))], the last step of [calculateDelay]. *)
Definition floor_at_zero (x : number) : number :=
  Math_max (Finite 0) (Math_floor x).

(** What a delay can be: NaN, the positive infinity, or an integer that is
    not negative. *)
Definition never_negative (x : number) : Prop :=
  x = NaN \/ x = Infinity false \/ exists z : Z, 0 <= z /\ x = Finite (inject_Z z).



(** "Floored to a non-negative integer". *)
Definition floored (q : Q) : Z := Z.max 0 (Qfloor q).


(** The events of a kind in a trace. *)
Definition is_sleep (e : event) : bool :=
  match e with EvSleep _ => true | _ => false end.
Definition is_call (e : event) : bool :=
  match e with EvCall => true | _ => false end.
Definition is_set (key : string) (e : event) : bool :=
  match e with EvSet k _ => String.eqb k key | _ => false end.

Definition sleeps (tr : list event) : list event := List.filter is_sleep tr.
Definition calls (tr : list event) : Z := Z.of_nat (length (List.filter is_call tr)).
Definition sets (key : string) (tr : list event) : list event :=
  List.filter (is_set key) tr.

(** An operation that fails at every invocation with [e]. *)
Definition always_throws {T : Type} (e : Error) : @Operation unit T :=
  fun s => (inr (ThrownError e), s).

(** A fresh world: what [create] leaves, with the draws [Math.random] will
    return, on an engine whose powers are all the nearest doubles. *)
Definition fresh_world {St : Type} (s : St) (rnd : nat -> Q) : @World St :=
  mkWorld initialState s rnd [] 0%nat [].

Section RunVocabulary.
Context {St T : Type}.

(** The value of a counter: [state.get(key) ?? 0]. *)
Definition counter (w : @World St) (key : string) : Z := store w !! key ?? 0.

(** The world after [operation()] has settled and left [s'] in its closure. *)
Definition after_call (w : @World St) (s' : St) : @World St :=
  mkWorld (store w) s' (random w) (power w) (draws w) (trace w ++ [EvCall])%list.

(** The world after the two [state.set] calls of a terminal outcome, which
    add one to the counter [key] and [attempt - 1] to [totalRetries]. *)
Definition record_outcome (key : string) (attempt : Z) (w : @World St) : @World St :=
  mkWorld (<["totalRetries" := counter w "totalRetries" + (attempt - 1)]>
             (<[key := counter w key + 1]> (store w)))
          (opstate w) (random w) (power w) (draws w)
          (trace w ++ [EvSet key (counter w key + 1);
                       EvSet "totalRetries"
                             (counter w "totalRetries" + (attempt - 1))])%list.

(** The world after the delay that follows a failed attempt was computed
    and slept. *)
Definition after_delay (self : RetryProps) (attempt : Z) (config : MergedConfig)
    (w : @World St) : @World St :=
  let (delay, w1) := calculateDelay self attempt config w in
  snd (sleep delay w1).

(** The world after [retry] has counted the call in [totalOperations]. *)
Definition counted (w : @World St) : @World St :=
  mkWorld (<["totalOperations" := counter w "totalOperations" + 1]> (store w))
          (opstate w) (random w) (power w) (draws w)
          (trace w ++ [EvSet "totalOperations"
                             (counter w "totalOperations" + 1)])%list.

(** How a run of the attempt loop ends. *)
Inductive ending := Succeeded | Exhausted | NonRetryable | FellThrough.

(** The runs of the loop of [retry], one constructor per path through its
    body: [loop_run self operation config a errs w k last r w'] says that
    the loop entered at attempt [a] with the errors [errs] collected so far
    in world [w] ends in the way [k] at attempt [last], settles as [r] and
    leaves world [w']. *)
Inductive loop_run (self : RetryProps) (operation : @Operation St T)
    (config : MergedConfig)
  : Z -> list Error -> @World St -> ending -> Z -> @Settled T -> @World St -> Prop :=
| run_fell_through a errs w :
    Qle_bool (inject_Z a) (m_maxAttempts config) = false ->
    loop_run self operation config a errs w FellThrough a
      (Rejected (mkError (unexpected_message self) None)) w
| run_succeeded a errs w v s' :
    Qle_bool (inject_Z a) (m_maxAttempts config) = true ->
    operation (opstate w) = (inl v, s') ->
    loop_run self operation config a errs w Succeeded a
      (Resolved (mkRetryResult v a errs true))
      (record_outcome "successfulOperations" a (after_call w s'))
| run_exhausted a errs w t s' :
    Qle_bool (inject_Z a) (m_maxAttempts config) = true ->
    operation (opstate w) = (inr t, s') ->
    Qeq_bool (inject_Z a) (m_maxAttempts config) = true ->
    loop_run self operation config a errs w Exhausted a
      (Rejected (mkError (exhausted_message self a (to_Error t)
                            (errs ++ [to_Error t])%list) None))
      (record_outcome "failedOperations" a (after_call w s'))
| run_non_retryable a errs w t s' :
    Qle_bool (inject_Z a) (m_maxAttempts config) = true ->
    operation (opstate w) = (inr t, s') ->
    Qeq_bool (inject_Z a) (m_maxAttempts config) = false ->
    isRetryableError self (to_Error t) = false ->
    loop_run self operation config a errs w NonRetryable a
      (Rejected (mkError (non_retryable_message self (to_Error t)) None))
      (record_outcome "failedOperations" a (after_call w s'))
| run_retried a errs w t s' k last r w' :
    Qle_bool (inject_Z a) (m_maxAttempts config) = true ->
    operation (opstate w) = (inr t, s') ->
    Qeq_bool (inject_Z a) (m_maxAttempts config) = false ->
    isRetryableError self (to_Error t) = true ->
    loop_run self operation config (a + 1) (errs ++ [to_Error t])%list
      (after_delay self a config (after_call w s')) k last r w' ->
    loop_run self operation config a errs w k last r w'.

(** The errors thrown by the next [k] invocations of the operation, and
    what its closure holds afterwards. *)
Fixpoint thrown_by (operation : @Operation St T) (k : nat) (s : St) : list Error :=
  match k with
  | O => []
  | S k' =>
    match operation s with
    | (inr t, s') => to_Error t :: thrown_by operation k' s'
    | (inl _, s') => thrown_by operation k' s'
    end
  end.

Fixpoint state_after (operation : @Operation St T) (k : nat) (s : St) : St :=
  match k with
  | O => s
  | S k' => state_after operation k' (snd (operation s))
  end.

(** The operation fails at every invocation, with a retryable error. *)
Definition always_fails_retryable (self : RetryProps) (operation : @Operation St T)
  : Prop :=
  forall s, exists t, fst (operation s) = inr t
                      /\ isRetryableError self (to_Error t) = true.

(** An event of the attempts themselves: an invocation or a sleep. *)
Definition call_or_sleep (e : event) : Prop :=
  e = EvCall \/ exists ms, e = EvSleep ms.

(** The counter that a settled call is recorded in. *)
Definition outcome_key (r : @Settled T) : string :=
  match r with
  | Resolved _ => "successfulOperations"
  | Rejected _ => "failedOperations"
  end.

(** The statistics updates that end a run, and the store they leave: none
    when the loop fell through, else one to the outcome's counter [key] and
    one to [totalRetries]. *)
Definition terminal_events (k : ending) (key : string) (last : Z) (w : @World St)
  : list event :=
  match k with
  | FellThrough => []
  | _ => [EvSet key (counter w key + 1);
          EvSet "totalRetries" (counter w "totalRetries" + (last - 1))]
  end.

Definition terminal_store (k : ending) (key : string) (last : Z) (w : @World St)
  : gmap string Z :=
  match k with
  | FellThrough => store w
  | _ => <["totalRetries" := counter w "totalRetries" + (last - 1)]>
           (<[key := counter w key + 1]> (store w))
  end.

(** Invocations in a run that enters the loop at [a] and ends at [last]. *)
Definition invocations (k : ending) (a last : Z) : Z :=
  match k with
  | FellThrough => last - a
  | _ => last - a + 1
  end.

End RunVocabulary.

(** Each of the outcome counters is updated exactly once among the events
    of a call: one update of [totalOperations], one of [totalRetries], and
    one of either [successfulOperations] or [failedOperations]. *)
Definition updated_once (evs : list event) : Prop :=
  length (sets "totalOperations" evs) = 1%nat
  /\ length (sets "totalRetries" evs) = 1%nat
  /\ length (sets "successfulOperations" evs ++ sets "failedOperations" evs)%list
     = 1%nat.

(** An operation that succeeds at every invocation. *)
Definition always_returns {T : Type} (v : T) : @Operation unit T :=
  fun s => (inl v, s).

(** An operation whose closure counts its invocations: it fails with [e]
    the first [k] times, and returns [v] afterwards. *)
Definition fails_then_returns {T : Type} (k : nat) (e : Error) (v : T)
  : @Operation nat T :=
  fun calls => if (calls <? k)%nat then (inr (ThrownError e), S calls)
               else (inl v, S calls).

(** The delay that the merged, effective policy of a call prescribes after
    an attempt when it has jitter disabled. *)
Definition effective_delay (config : MergedConfig) (attempt : Z) : Z :=
  floored (Qmin (m_baseDelay config * m_backoffMultiplier config ^ (attempt - 1))%Q
                (m_maxDelay config)).

(** The override that sets [maxAttempts] and nothing else. *)
Definition only_maxAttempts (q : Q) : RetryConfig :=
  mkRetryConfig (Some q) None None None None None.

(** The counters of outcomes account for no more than the calls counted. *)
Definition stats_consistent {St : Type} (w : @World St) : Prop :=
  0 <= counter w "successfulOperations"
  /\ 0 <= counter w "failedOperations"
  /\ counter w "successfulOperations" + counter w "failedOperations"
     <= counter w "totalOperations".

(** ** Further vocabulary *)

Section MoreVocabulary.
Context {St T : Type}.

(** The next [k] invocations of the operation, from closure state [s], all
    throw an error that the instance classifies as retryable. *)
Fixpoint fails_retryably (self : RetryProps) (operation : @Operation St T)
    (k : nat) (s : St) : Prop :=
  match k with
  | O => True
  | S k' => exists t s', operation s = (inr t, s')
                         /\ isRetryableError self (to_Error t) = true
                         /\ fails_retryably self operation k' s'
  end.

(** Whatever the operation throws, in any state, is retryable. *)
Definition throws_only_retryable (self : RetryProps) (operation : @Operation St T)
  : Prop :=
  forall s t s', operation s = (inr t, s') ->
                 isRetryableError self (to_Error t) = true.

End MoreVocabulary.

(** The backoff schedule without jitter: the delays after attempts [a],
    [a + 1], ..., [a + n - 1]. *)
Fixpoint schedule (engine : Q -> Z -> number) (self : RetryProps) (a : Z) (n : nat)
  : list number :=
  match n with
  | O => []
  | S n' => floor_at_zero (unjittered engine self a) :: schedule engine self (a + 1) n'
  end.

(** The durations of the sleeps in a trace. *)
Fixpoint sleep_times (tr : list event) : list number :=
  match tr with
  | [] => []
  | EvSleep ms :: rest => ms :: sleep_times rest
  | _ :: rest => sleep_times rest
  end.

(** The events that a call added to the trace of the world it started in. *)
Definition new_events {St : Type} (w w' : @World St) : list event :=
  skipn (length (trace w)) (trace w').

(** Every value that [Math.random] will return is in [0, 1). *)
Definition draws_in_unit_interval {St : Type} (w : @World St) : Prop :=
  forall i, (0 <= random w i)%Q /\ (random w i < 1)%Q.

(** An operation whose closure counts its invocations: invocation number
    [i] throws the [i]-th error of the list, and the invocations past the
    list return [v]. *)
Definition throws_in_turn {T : Type} (es : list Error) (v : T)
  : @Operation nat T :=
  fun i => match nth_error es i with
           | Some e => (inr (ThrownError e), S i)
           | None => (inl v, S i)
           end.

(** What is left of [p] once all of [s] has been read as a beginning of
    it; [None] when [s] does not begin [p] or [p] ends before [s] does. *)
Fixpoint rest_after (p s : string) : option string :=
  match s with
  | EmptyString => Some p
  | String b s' =>
    match p with
    | EmptyString => None
    | String a p' => if Ascii.eqb a b then rest_after p' s' else None
    end
  end.

(** No occurrence of [p] starts inside [s], whatever text follows [s]:
    at no position of [s] does [p] occur, or begin and run past its end. *)
Fixpoint clean (s p : string) : bool :=
  match s with
  | EmptyString => true
  | String _ s' =>
    negb (String.prefix p s)
    && match rest_after p s with Some _ => false | None => true end
    && clean s' p
  end.

(** The worlds reached from [w0] by [n] calls of [retry] in a row, each with
    any operation, any overrides and any policy. *)
Inductive after_calls {St : Type} (w0 : @World St) : nat -> @World St -> Prop :=
| no_call : after_calls w0 0 w0
| one_more_call (n : nat) (w : @World St) (T : Type) (self : RetryProps)
    (operation : @Operation St T) (opts : option RetryConfig) :
    after_calls w0 n w ->
    after_calls w0 (S n) (snd (retry self operation opts w)).

(** The events of failed attempts that are retried: each is an invocation
    followed by a sleep. *)
Fixpoint attempt_events (ds : list number) : list event :=
  match ds with
  | [] => []
  | d :: rest => EvCall :: EvSleep d :: attempt_events rest
  end.

(** A double in the representation of the Standard Library's specification
    of IEEE-754 arithmetic, as a [number]. *)
Definition of_spec_float (x : SpecFloat.spec_float) : number :=
  match x with
  | SpecFloat.S754_zero _ => Finite 0
  | SpecFloat.S754_infinity s => Infinity s
  | SpecFloat.S754_nan => NaN
  | SpecFloat.S754_finite s m e =>
    Finite (Qred (inject_Z (if s then Z.neg m else Z.pos m) * 2 ^ e))
  end.

(** ** Rounding to doubles *)

Local Close Scope string_scope.

(** Powers of two. *)
Lemma pow2_pos (s : Z) : (0 < 2 ^ s)%Q.
Proof. apply Qpower_0_lt. reflexivity. Qed.

Lemma pow2_Z (s : Z) : 0 <= s -> (2 ^ s == inject_Z (2 ^ s))%Q.
Proof. intros H. rewrite Zpower_Qpower by exact H. reflexivity. Qed.


Lemma pow2_opp (a : Z) : (2 ^ (- a) == / 2 ^ a)%Q.
Proof. apply Qpower_opp. Qed.











Lemma round_wd (p q : Q) : (p == q)%Q -> round p = round q.
Proof. intros H. unfold round. now rewrite (Qred_complete p q H). Qed.





Section Jitter.
Variables c r : Q.
Hypothesis Hc0 : (0 <= c)%Q.
Hypothesis HcK : (c <= 2 ^ 1000)%Q.
Hypothesis Hr0 : (0 <= r)%Q.
Hypothesis Hr1 : (r < 1)%Q.


End Jitter.

Lemma Qred_inject_Z (z : Z) : Qred (inject_Z z) = inject_Z z.
Proof. apply Qcanon.Qred_identity. apply Z.gcd_1_r. Qed.

Lemma binade_Z (n : Z) : 0 < n -> binade n 1 = Z.log2 n.
Proof.
  intros Hn. unfold binade, scaled. change (Z.log2 1) with 0. rewrite Z.sub_0_r.
  pose proof (Z.log2_nonneg n) as H0. pose proof (Z.log2_spec n Hn) as [H1 _].
  destruct (Z.leb_spec 0 (- Z.log2 n)) as [H|H].
  - assert (E : Z.log2 n = 0) by lia. rewrite E in *.
    change (2 ^ (- 0)) with 1. rewrite Z.mul_1_r.
    destruct (Z.leb_spec 1 n); lia.
  - rewrite Z.opp_involutive, Z.mul_1_l.
    destruct (Z.leb_spec (2 ^ Z.log2 n) n); lia.
Qed.

(** Integers below [2^53] are doubles. *)
Lemma round_Z (z : Z) : Z.abs z < 2 ^ 53 -> round (inject_Z z) = Finite (inject_Z z).
Proof.
  intros Hz. unfold round. rewrite Qred_inject_Z. cbn [Qnum Qden inject_Z].
  destruct (Z.eqb_spec (Z.abs z) 0) as [H0|H0].
  - assert (z = 0) by lia. subst z. reflexivity.
  - set (n := Z.abs z) in *. assert (Hn : 0 < n) by (unfold n; lia).
    rewrite (binade_Z n Hn).
    pose proof (Z.log2_nonneg n) as He0.
    assert (He : Z.log2 n < 53) by (apply Z.log2_lt_pow2; assumption).
    pose proof (Z.log2_spec n Hn) as [_ Hn2].
    rewrite Z.max_l by lia.
    set (e := Z.log2 n) in *.
    unfold scaled. replace (0 <=? - (e - 52)) with true
      by (symmetry; apply Z.leb_le; lia).
    replace (- (e - 52)) with (52 - e) by lia.
    assert (Hm : nearest_even (n * 2 ^ (52 - e)) 1 = n * 2 ^ (52 - e)).
    { unfold nearest_even. rewrite Z.mod_1_r, Z.div_1_r. reflexivity. }
    rewrite Hm.
    assert (Hlt : n * 2 ^ (52 - e) < 2 ^ 53).
    { replace 53 with (Z.succ e + (52 - e)) by lia.
      rewrite Z.pow_add_r by lia.
      apply Z.mul_lt_mono_pos_r; [apply Z.pow_pos_nonneg; lia | exact Hn2]. }
    assert (Hbig : 2 ^ 53 <= 2 ^ (1024 - (e - 52)))
      by (apply Z.pow_le_mono_r; lia).
    destruct (Z.leb_spec (2 ^ (1024 - (e - 52))) (n * 2 ^ (52 - e))) as [H|_];
      [lia|].
    f_equal. rewrite <- (Qred_inject_Z z). apply Qred_complete.
    rewrite inject_Z_mult, !inject_Z_mult, <- (pow2_Z (52 - e)) by lia.
    replace (e - 52) with (- (52 - e)) by lia. rewrite pow2_opp.
    assert (Ez : (inject_Z z == inject_Z (Z.sgn z) * inject_Z n)%Q).
    { rewrite <- inject_Z_mult. replace (Z.sgn z * n) with z
        by (unfold n; now destruct z). reflexivity. }
    rewrite Ez. pose proof (pow2_pos (52 - e)). field. lra.
Qed.

Lemma Math_min_Z (x y : Z) :
  Math_min (Finite (inject_Z x)) (Finite (inject_Z y)) = Finite (inject_Z (Z.min x y)).
Proof.
  unfold Math_min. destruct (Qle_bool (inject_Z x) (inject_Z y)) eqn:H.
  - apply Qle_bool_iff in H. rewrite <- Zle_Qle in H. now rewrite Z.min_l.
  - assert (~ x <= y).
    { intros Hle. rewrite Zle_Qle in Hle. apply Qle_bool_iff in Hle. congruence. }
    now rewrite Z.min_r by lia.
Qed.

Lemma Math_max_zero_Z (z : Z) :
  Math_max (Finite 0) (Finite (inject_Z z)) = Finite (inject_Z (Z.max 0 z)).
Proof.
  unfold Math_max. destruct (Qle_bool 0 (inject_Z z)) eqn:H.
  - apply Qle_bool_iff in H. change 0%Q with (inject_Z 0) in H.
    rewrite <- Zle_Qle in H. now rewrite Z.max_r.
  - assert (~ 0 <= z).
    { intros Hle. rewrite Zle_Qle in Hle. apply Qle_bool_iff in Hle.
      change (inject_Z 0) with 0%Q in Hle. congruence. }
    now rewrite Z.max_l by lia.
Qed.

Lemma floor_at_zero_Finite (q : Q) :
  floor_at_zero (Finite q) = Finite (inject_Z (Z.max 0 (Qfloor q))).
Proof. apply Math_max_zero_Z. Qed.

Lemma floor_at_zero_Z (z : Z) :
  floor_at_zero (Finite (inject_Z z)) = Finite (inject_Z (Z.max 0 z)).
Proof. now rewrite floor_at_zero_Finite, Qfloor_Z. Qed.

Lemma floor_at_zero_never_negative (x : number) : never_negative (floor_at_zero x).
Proof.
  unfold never_negative, floor_at_zero.
  destruct x as [|[|]|q]; cbn [Math_floor Math_max].
  - now left.
  - right; right. exists 0. split; [lia | reflexivity].
  - right; left. reflexivity.
  - right; right. destruct (Qle_bool 0 (inject_Z (Qfloor q))) eqn:H.
    + exists (Qfloor q). split; [|reflexivity].
      apply Qle_bool_iff in H. change 0%Q with (inject_Z 0) in H.
      now rewrite <- Zle_Qle in H.
    + exists 0. split; [lia | reflexivity].
Qed.

(** The operations on [number] against the binary64 operations of the
    Standard Library's specification of IEEE-754 (precision 53, exponents
    below 1024), on doubles that round down, up, to even, to zero and to
    infinity; and [Number] against its correctly rounded division. *)
Example round_agrees_with_IEEE :
  let double m e := SpecFloat.S754_finite false (Z.to_pos m) e in
  let minus m e := SpecFloat.S754_finite true (Z.to_pos m) e in
  let pairs :=
    [ (double 100 0, double 5179139571476070 (-52));
      (double 4897664594765414 (-50), double 100 0);
      (double 5 0, double 5404319552844595 (-52));
      (double 5361428127822019 (-50), double 7205759403792794 (-56));
      (minus 4503599627370497 (-52), double 6004799503160661 (-54));
      (double 1 (-1074), double 1 (-1));
      (double 3 (-1074), double 1 (-1));
      (double 9007199254740991 971, double 2 0);
      (double 9007199254740991 971, minus 9007199254740991 918);
      (double 9007199254740993 0, double 1 0) ] in
  let fractions :=
    [ (115, 100); (435, 100); (12, 10); (1, 10); (1, 3); (2, 3);
      (4761904761904762, 1000000000000000);
      (9999999999999998, 10000000000000000) ] in
  map (fun p => Number_multiply (of_spec_float (fst p)) (of_spec_float (snd p)))
      pairs
  = map (fun p => of_spec_float (SpecFloat.SFmul 53 1024 (fst p) (snd p))) pairs
  /\ map (fun p => Number_add (of_spec_float (fst p)) (of_spec_float (snd p)))
         pairs
     = map (fun p => of_spec_float (SpecFloat.SFadd 53 1024 (fst p) (snd p))) pairs
  /\ map (fun p => Number (fst p # Z.to_pos (snd p))) fractions
     = map (fun p => of_spec_float
                       (SpecFloat.SFdiv 53 1024 (double (fst p) 0)
                                        (double (snd p) 0))) fractions.
Proof. cbv zeta. repeat split; vm_compute; reflexivity. Qed.

Local Open Scope string_scope.

(** * Properties *)

(** ** Strings and the classifier *)

Lemma append_String (c : ascii) (a b : string) :
  String c a ++ b = String c (a ++ b).
Proof. reflexivity. Qed.

Lemma append_empty (b : string) : "" ++ b = b.
Proof. reflexivity. Qed.

Lemma prefix_spec (p s : string) :
  String.prefix p s = true <-> exists t, s = p ++ t.
Proof.
  revert p. induction s as [|b s IH]; intros [|a p]; simpl.
  - split; [exists ""; reflexivity | reflexivity].
  - split; [discriminate | intros [t Ht]; rewrite append_String in Ht; discriminate].
  - split; [exists (String b s); reflexivity | reflexivity].
  - destruct (ascii_dec a b) as [->|Hab].
    + rewrite IH. split; intros [t Ht]; exists t;
        rewrite append_String in *; congruence.
    + split; [discriminate|].
      intros [t Ht]. rewrite append_String in Ht. congruence.
Qed.

Lemma includes_spec (s p : string) : includes s p = true <-> contains s p.
Proof.
  unfold contains. induction s as [|c s IH]; cbn [includes].
  - rewrite orb_false_r, prefix_spec. split.
    + intros [t Ht]. exists "", t. exact Ht.
    + intros [[|x a] [b Hb]]; [exists b; exact Hb|].
      rewrite append_String in Hb. discriminate.
  - rewrite orb_true_iff, prefix_spec, IH. split.
    + intros [[t Ht] | (a & b & Hab)].
      * exists "", t. exact Ht.
      * exists (String c a), b. rewrite append_String. congruence.
    + intros ([|x a] & b & Hab).
      * left. exists b. exact Hab.
      * right. exists a, b. rewrite append_String in Hab. congruence.
Qed.

Lemma has_spec (set : list string) (x : string) : has set x = true <-> In x set.
Proof.
  unfold has. rewrite existsb_exists. split.
  - intros (y & Hy & Heq). apply String.eqb_eq in Heq. congruence.
  - intros Hx. exists x. split; [exact Hx | apply String.eqb_refl].
Qed.

Lemma truthy_string_spec (s : string) : truthy_string s = true <-> s <> "".
Proof.
  unfold truthy_string. rewrite negb_true_iff. apply String.eqb_neq.
Qed.

Lemma patterns_spec (e : Error) :
  existsb (fun pattern => includes (toLowerCase (message e)) pattern)
          retryablePatterns = true <-> message_matches e.
Proof.
  unfold message_matches. rewrite existsb_exists.
  split; intros (p & Hp & H); exists p; (split; [exact Hp|]);
    apply includes_spec; exact H.
Qed.

(** C6, as the code has it: an error is retryable exactly when it carries a
    non-empty code that is in the instance's set of retryable codes, or its
    lowercased message contains one of the sixteen keywords; otherwise it is
    not retryable. *)
Theorem isRetryableError_spec (self : RetryProps) (e : Error) :
  isRetryableError self e = true <->
  (exists c, code e = Some c /\ c <> "" /\ In c (retryableErrors self))
  \/ message_matches e.
Proof.
  unfold isRetryableError.
  destruct (code e) as [c|] eqn:Hc.
  - destruct (truthy_string c && has (retryableErrors self) c) eqn:Hg.
    + apply andb_true_iff in Hg as [Ht Hh].
      split; [intros _ | reflexivity].
      left. exists c. repeat split.
      * now apply truthy_string_spec.
      * now apply has_spec.
    + rewrite patterns_spec. split; [now right|].
      intros [(c' & Hc' & Hne & Hin) | Hm]; [|exact Hm].
      injection Hc' as <-.
      apply truthy_string_spec in Hne. apply has_spec in Hin.
      rewrite Hne, Hin in Hg. discriminate.
  - rewrite patterns_spec. split; [now right|].
    intros [(c' & Hc' & _) | Hm]; [discriminate | exact Hm].
Qed.

(** C6, as the claim words it, fails: an error whose code is the empty
    string is not retryable by its code, even when the empty string is one
    of the instance's retryable codes. *)
Lemma isRetryableError_empty_code :
  let self := create (mkRetryConfig None None None None None (Some [""])) in
  let e := mkError "bad input" (Some "") in
  ~ (isRetryableError self e = true <-> code_listed self e \/ message_matches e).
Proof.
  intros self e [_ H].
  assert (Hf : isRetryableError self e = false) by reflexivity.
  rewrite H in Hf; [discriminate|].
  left. exists "". split; [reflexivity | left; reflexivity].
Qed.

(** ** Delay calculator *)

Section Delay.
Context {St : Type}.
Implicit Types (w : @World St) (self : RetryProps) (cfg : MergedConfig).

Lemma calculateDelay_plain self a cfg w :
  jitter self = false ->
  calculateDelay self a cfg w = (floor_at_zero (unjittered (engine_power (power w)) self a), w).
Proof.
  intros Hj. unfold calculateDelay, exponentiate, bind, ret. rewrite Hj.
  reflexivity.
Qed.

Lemma calculateDelay_jittered self a cfg w :
  jitter self = true ->
  calculateDelay self a cfg w =
  (floor_at_zero (jittered (unjittered (engine_power (power w)) self a)
                           (Number (random w (draws w)))),
   mkWorld (store w) (opstate w) (random w) (power w) (S (draws w)) (trace w)).
Proof.
  intros Hj. unfold calculateDelay, exponentiate, bind, ret, Math_random.
  rewrite Hj. reflexivity.
Qed.

(** The parameter [config] of [calculateDelay] has no influence. *)
Lemma calculateDelay_ignores_config self a cfg cfg' w :
  calculateDelay self a cfg w = calculateDelay self a cfg' w.
Proof. reflexivity. Qed.


End Delay.

Section DelayValues.
Context {St : Type}.
Implicit Types (w : @World St) (self : RetryProps) (cfg : MergedConfig).

(** Whatever the policy and the draw, the delay is the last step of
    [calculateDelay] applied to some number. *)
Lemma calculateDelay_never_negative self a cfg w :
  never_negative (fst (calculateDelay self a cfg w)).
Proof.
  destruct (jitter self) eqn:Hj.
  - rewrite calculateDelay_jittered by exact Hj.
    apply floor_at_zero_never_negative.
  - rewrite calculateDelay_plain by exact Hj.
    apply floor_at_zero_never_negative.
Qed.

(** On a policy of integers the doubles are exact as long as the product
    stays below [2^53], and the delay is the one of the real formula. *)
Lemma unjittered_integers self a (engine : Q -> Z -> number) (b m M : Z) :
  1 <= a ->
  baseDelay self = inject_Z b -> backoffMultiplier self = inject_Z m ->
  maxDelay self = inject_Z M ->
  Z.abs b < 2 ^ 53 -> Z.abs m < 2 ^ 53 -> Z.abs M < 2 ^ 53 ->
  Z.abs (b * m ^ (a - 1)) < 2 ^ 53 ->
  Number_exponentiate engine (Finite (inject_Z m)) (a - 1)
  = Finite (inject_Z (m ^ (a - 1))) ->
  floor_at_zero (unjittered engine self a)
  = Finite (inject_Z (floored (clamped self a))).
Proof.
  intros Ha Hb Hm HM Bb Bm BM Bp Hpow.
  unfold unjittered, clamped, Number. rewrite Hb, Hm, HM.
  rewrite !round_Z by assumption. rewrite Hpow.
  unfold Number_multiply.
  rewrite (round_wd _ (inject_Z (b * m ^ (a - 1))))
    by (rewrite inject_Z_mult; reflexivity).
  rewrite round_Z by exact Bp.
  rewrite Math_min_Z, floor_at_zero_Z. unfold floored. do 3 f_equal.
  assert (E : (inject_Z b * inject_Z m ^ (a - 1)
               == inject_Z (b * m ^ (a - 1)))%Q).
  { rewrite inject_Z_mult, Zpower_Qpower by lia. reflexivity. }
  destruct (Z.le_ge_cases (b * m ^ (a - 1)) M) as [Hle|Hge].
  - rewrite Z.min_l by exact Hle.
    rewrite <- (Qfloor_Z (b * m ^ (a - 1))). apply Qfloor_comp.
    rewrite Q.min_l; [symmetry; exact E|]. rewrite E. now rewrite <- Zle_Qle.
  - rewrite Z.min_r by exact Hge.
    rewrite <- (Qfloor_Z M) at 1. apply Qfloor_comp.
    rewrite Q.min_r; [reflexivity|]. rewrite E. now rewrite <- Zle_Qle.
Qed.

End DelayValues.

(** C4, as the claim words it, fails: the code computes in doubles, and a
    product that was rounded can lie on the other side of an integer than
    the exact product.  With baseDelay 100 and multiplier 1.15 the delay
    after attempt 2 is the floor of 114.99999999999999, which is 114, where
    the formula gives 115.  With baseDelay 5 and, for the multiplier, the
    double next to 1.2, which is a little less, the delay after attempt 2
    is 6, where the exact product is less than 6 and the formula gives 5.
    And with baseDelay 0 and multiplier 2 the delay after attempt 1100 is
    NaN, as [2 ** 1099] is Infinity, where the formula gives 0. *)
Lemma plain_delay_is_rounded :
  let policy b m :=
    create (mkRetryConfig None (Some b) (Some 5000%Q) (Some false) (Some m) None) in
  let delay self a :=
    fst (calculateDelay self a (mergeOptions self None)
           (fresh_world tt (fun _ => 0%Q))) in
  let below := policy 100%Q (115 # 100)%Q in
  let m := (5404319552844595 # 4503599627370496)%Q in
  let above := policy 5%Q m in
  let zero := policy 0%Q 2%Q in
  (jitter below = false /\ delay below 2 = Finite 114
   /\ floored (clamped below 2) = 115)
  /\ (jitter above = false /\ delay above 2 = Finite 6
      /\ Number m = Finite m
      /\ floored (clamped above 2) = 5)
  /\ (jitter zero = false /\ delay zero 1100 = NaN
      /\ floored (clamped zero 1100) = 0).
Proof.
  cbv zeta. repeat apply conj; vm_compute; reflexivity.
Qed.

(** C4, as the code has it: with the instance's jitter disabled, the delay
    computed after attempt [a >= 1] is
    [Math.max(0, Math.floor(Math.min(baseDelay * backoffMultiplier ** (a-1), maxDelay)))]
    in the arithmetic of doubles, whatever the world (no random draw is
    consumed); it is a non-negative integer, unless it is NaN or Infinity.
    When baseDelay, backoffMultiplier and maxDelay are integers, the
    product [baseDelay * backoffMultiplier^(a-1)] is below [2^53] in
    magnitude and the engine returns the power exactly, it is the value
    of the real formula, floored to a non-negative integer.  For
    baseDelay 100, multiplier 2 and maxDelay 5000 the delays after
    attempts 1, 2, 3 are 100, 200, 400, and these are the sleeps of a call
    whose four attempts all fail. *)
Theorem calculateDelay_without_jitter :
  (forall (St : Type) (self : RetryProps) (a : Z) (cfg : MergedConfig)
          (w : @World St),
      1 <= a -> jitter self = false ->
      calculateDelay self a cfg w
      = (Math_max (Finite 0)
           (Math_floor
              (Math_min
                 (Number_multiply (Number (baseDelay self))
                    (Number_exponentiate (engine_power (power w))
                       (Number (backoffMultiplier self)) (a - 1)))
                 (Number (maxDelay self)))), w)
      /\ never_negative (fst (calculateDelay self a cfg w)))
  /\ (forall (St : Type) (self : RetryProps) (a : Z) (cfg : MergedConfig)
             (w : @World St) (b m M : Z),
      1 <= a -> jitter self = false ->
      baseDelay self = inject_Z b -> backoffMultiplier self = inject_Z m ->
      maxDelay self = inject_Z M ->
      Z.abs b < 2 ^ 53 -> Z.abs m < 2 ^ 53 -> Z.abs M < 2 ^ 53 ->
      Z.abs (b * m ^ (a - 1)) < 2 ^ 53 ->
      Number_exponentiate (engine_power (power w)) (Finite (inject_Z m)) (a - 1)
      = Finite (inject_Z (m ^ (a - 1))) ->
      fst (calculateDelay self a cfg w)
      = Finite (inject_Z (floored (clamped self a))))
  /\ (forall (St : Type) (cfg : MergedConfig) (w : @World St),
      let self := create (mkRetryConfig None (Some 100%Q) (Some 5000%Q)
                                        (Some false) (Some 2%Q) None) in
      power w = [] ->
      map (fun a => fst (calculateDelay self a cfg w)) [1; 2; 3]
      = [Finite 100; Finite 200; Finite 400])
  /\ (let self := create (mkRetryConfig (Some 4%Q) (Some 100%Q) (Some 5000%Q)
                                        (Some false) (Some 2%Q) None) in
      let w := fresh_world tt (fun _ => 0%Q) in
      sleeps (trace (snd (retry self (always_throws (T := unit)
                                        (mkError "timeout" None)) None w)))
      = [EvSleep (Finite 100); EvSleep (Finite 200); EvSleep (Finite 400)]).
Proof.
  split; [|split; [|split]].
  - intros St self a cfg w _ Hj. split.
    + now apply calculateDelay_plain.
    + apply calculateDelay_never_negative.
  - intros St self a cfg w b m M Ha Hj Hb Hm HM Bb Bm BM Bp Hpow.
    rewrite calculateDelay_plain by exact Hj. cbn [fst].
    now apply (unjittered_integers self a _ b m M).
  - intros St cfg w self Hpow. cbn [map].
    rewrite !calculateDelay_plain by reflexivity. rewrite Hpow.
    vm_compute. reflexivity.
  - vm_compute. reflexivity.
Qed.

Lemma calculateDelay_without_jitter_witness :
  let self := create (mkRetryConfig None None None (Some false) None None) in
  fst (calculateDelay self 6 (mkMergedConfig 3 100 5000 false 2 [])
         (fresh_world tt (fun _ => 0%Q)))
  = Finite (inject_Z (floored (clamped self 6))).
Proof.
  intros self.
  refine (proj1 (proj2 calculateDelay_without_jitter) unit self 6 _ _
            100 2 5000 _ _ _ _ _ _ _ _ _ _).
  - lia.
  - reflexivity.
  - reflexivity.
  - reflexivity.
  - reflexivity.
  - vm_compute. reflexivity.
  - vm_compute. reflexivity.
  - vm_compute. reflexivity.
  - vm_compute. reflexivity.
  - vm_compute. reflexivity.
Defined.




(** ** The attempt loop *)

Section Loop.
Context {St T : Type}.
Variables (self : RetryProps) (operation : @Operation St T) (config : MergedConfig).
Implicit Types (w : @World St) (a : Z) (errs : list Error) (fuel : nat).

(** One equation per path through the body of the loop. *)

Lemma loop_fell_through fuel a errs w :
  Qle_bool (inject_Z a) (m_maxAttempts config) = false ->
  retry_loop self operation config (S fuel) a errs w
  = (Some (Rejected (mkError (unexpected_message self) None)), w).
Proof. intros H. cbn [retry_loop]. rewrite H. reflexivity. Qed.

Lemma record_outcome_eq key a w (r : option (@Settled T)) :
  (let* x := state_get key in
   let* totalRetries := state_get "totalRetries" in
   state_set key ((x ?? 0) + 1) ;;;
   state_set "totalRetries" ((totalRetries ?? 0) + (a - 1)) ;;;
   ret r) w
  = (r, record_outcome key a w).
Proof.
  unfold bind, ret, state_get, state_set, record_outcome, counter. cbn.
  rewrite <- app_assoc. reflexivity.
Qed.

Lemma loop_succeeded fuel a errs w v s' :
  Qle_bool (inject_Z a) (m_maxAttempts config) = true ->
  operation (opstate w) = (inl v, s') ->
  retry_loop self operation config (S fuel) a errs w
  = (Some (Resolved (mkRetryResult v a errs true)),
     record_outcome "successfulOperations" a (after_call w s')).
Proof.
  intros H Hop. cbn [retry_loop]. rewrite H.
  unfold bind at 1. unfold call. rewrite Hop.
  apply record_outcome_eq.
Qed.

Lemma loop_exhausted fuel a errs w t s' :
  Qle_bool (inject_Z a) (m_maxAttempts config) = true ->
  operation (opstate w) = (inr t, s') ->
  Qeq_bool (inject_Z a) (m_maxAttempts config) = true ->
  retry_loop self operation config (S fuel) a errs w
  = (Some (Rejected (mkError (exhausted_message self a (to_Error t)
                               (errs ++ [to_Error t])) None)),
     record_outcome "failedOperations" a (after_call w s')).
Proof.
  intros H Hop Heq. cbn [retry_loop]. rewrite H.
  unfold bind at 1. unfold call. rewrite Hop. cbv zeta. rewrite Heq.
  apply record_outcome_eq.
Qed.

Lemma loop_non_retryable fuel a errs w t s' :
  Qle_bool (inject_Z a) (m_maxAttempts config) = true ->
  operation (opstate w) = (inr t, s') ->
  Qeq_bool (inject_Z a) (m_maxAttempts config) = false ->
  isRetryableError self (to_Error t) = false ->
  retry_loop self operation config (S fuel) a errs w
  = (Some (Rejected (mkError (non_retryable_message self (to_Error t)) None)),
     record_outcome "failedOperations" a (after_call w s')).
Proof.
  intros H Hop Heq Hr. cbn [retry_loop]. rewrite H.
  unfold bind at 1. unfold call. rewrite Hop. cbv zeta. rewrite Heq, Hr.
  apply record_outcome_eq.
Qed.

Lemma loop_retried fuel a errs w t s' :
  Qle_bool (inject_Z a) (m_maxAttempts config) = true ->
  operation (opstate w) = (inr t, s') ->
  Qeq_bool (inject_Z a) (m_maxAttempts config) = false ->
  isRetryableError self (to_Error t) = true ->
  retry_loop self operation config (S fuel) a errs w
  = retry_loop self operation config fuel (a + 1) (errs ++ [to_Error t])
      (after_delay self a config (after_call w s')).
Proof.
  intros H Hop Heq Hr. cbn [retry_loop]. rewrite H.
  unfold bind at 1. unfold call. rewrite Hop. cbv zeta. rewrite Heq, Hr.
  cbn [negb]. unfold bind, after_delay.
  fold (after_call w s').
  destruct (calculateDelay self a config (after_call w s')) as [d w1].
  destruct (sleep d w1) as [[] w2]. reflexivity.
Qed.

End Loop.

Section Runs.
Context {St T : Type}.
Variables (self : RetryProps) (operation : @Operation St T) (config : MergedConfig).
Implicit Types (w : @World St) (a : Z) (errs : list Error) (fuel : nat).

Lemma Qle_bool_floor a (q : Q) :
  Qle_bool (inject_Z a) q = true -> a <= Qfloor q.
Proof.
  intros H. apply Qle_bool_iff in H.
  rewrite <- (Qfloor_Z a). now apply Qfloor_resp_le.
Qed.

(** The loop always settles within the fuel that [retry] gives it, and its
    run is one of [loop_run]. *)
Lemma retry_loop_run fuel : forall a errs w,
  (Z.to_nat (Qfloor (m_maxAttempts config) - a + 1) < fuel)%nat ->
  exists k last r w',
    retry_loop self operation config fuel a errs w = (Some r, w')
    /\ loop_run self operation config a errs w k last r w'.
Proof.
  induction fuel as [|fuel IH]; intros a errs w Hfuel; [lia|].
  destruct (Qle_bool (inject_Z a) (m_maxAttempts config)) eqn:Hle.
  - destruct (operation (opstate w)) as [[v|t] s'] eqn:Hop.
    + eexists _, _, _, _. split.
      * eapply loop_succeeded; eassumption.
      * eapply run_succeeded; eassumption.
    + destruct (Qeq_bool (inject_Z a) (m_maxAttempts config)) eqn:Heq.
      * eexists _, _, _, _. split.
        -- eapply loop_exhausted; eassumption.
        -- eapply run_exhausted; eassumption.
      * destruct (isRetryableError self (to_Error t)) eqn:Hr.
        -- apply Qle_bool_floor in Hle as Hfl.
           destruct (IH (a + 1) (errs ++ [to_Error t])%list
                        (after_delay self a config (after_call w s')))
             as (k & last & r & w' & Hrun & Hrel); [lia|].
           exists k, last, r, w'. split.
           ++ rewrite (loop_retried _ _ _ _ _ _ _ t s') by assumption.
              exact Hrun.
           ++ eapply run_retried; eassumption.
        -- eexists _, _, _, _. split.
           ++ eapply loop_non_retryable; eassumption.
           ++ eapply run_non_retryable; eassumption.
  - eexists _, _, _, _. split.
    + eapply loop_fell_through; eassumption.
    + eapply run_fell_through; eassumption.
Qed.

End Runs.

(** [retry] is the count of the call followed by a run of the loop; in
    particular it always settles. *)
Lemma retry_run {St T : Type} (self : RetryProps) (operation : @Operation St T)
    (opts : option RetryConfig) (w : @World St) :
  exists k last r w',
    retry self operation opts w = (Some r, w')
    /\ loop_run self operation (mergeOptions self opts) 1 [] (counted w) k last r w'.
Proof.
  destruct (retry_loop_run self operation (mergeOptions self opts)
              (retry_fuel (mergeOptions self opts)) 1 [] (counted w))
    as (k & last & r & w' & Hrun & Hrel).
  { unfold retry_fuel.
    replace (Qfloor (m_maxAttempts (mergeOptions self opts)) - 1 + 1)
      with (Qfloor (m_maxAttempts (mergeOptions self opts))) by lia.
    lia. }
  exists k, last, r, w'. split; [|exact Hrel].
  unfold retry. unfold bind at 1 2. unfold state_get, state_set.
  exact Hrun.
Qed.

(** ** What a run leaves in the world *)

Section Frames.
Context {St : Type}.
Implicit Types (w : @World St) (a : Z) (tr : list event).

Lemma calls_app tr1 tr2 : calls (tr1 ++ tr2) = calls tr1 + calls tr2.
Proof. unfold calls. rewrite List.filter_app, List.length_app. lia. Qed.

Lemma sleeps_app tr1 tr2 : sleeps (tr1 ++ tr2) = (sleeps tr1 ++ sleeps tr2)%list.
Proof. apply List.filter_app. Qed.

Lemma sets_app key tr1 tr2 :
  sets key (tr1 ++ tr2) = (sets key tr1 ++ sets key tr2)%list.
Proof. apply List.filter_app. Qed.

Lemma sets_call_or_sleep key tr : Forall call_or_sleep tr -> sets key tr = [].
Proof.
  induction 1 as [|e tr He _ IH]; [reflexivity|].
  unfold sets in *. destruct He as [->|[ms ->]]; cbn; exact IH.
Qed.

Lemma after_delay_spec self a config w :
  exists n,
    after_delay self a config w
    = mkWorld (store w) (opstate w) (random w) (power w) n
              (trace w ++ [EvSleep (fst (calculateDelay self a config w))]).
Proof.
  unfold after_delay, calculateDelay, exponentiate, bind, ret, Math_random, sleep.
  destruct (jitter self); cbn; eexists; reflexivity.
Qed.

Lemma after_delay_store self a config w :
  store (after_delay self a config w) = store w.
Proof. destruct (after_delay_spec self a config w) as [n ->]. reflexivity. Qed.

Lemma after_delay_opstate self a config w :
  opstate (after_delay self a config w) = opstate w.
Proof. destruct (after_delay_spec self a config w) as [n ->]. reflexivity. Qed.

Lemma after_delay_trace self a config w :
  trace (after_delay self a config w)
  = (trace w ++ [EvSleep (fst (calculateDelay self a config w))])%list.
Proof. destruct (after_delay_spec self a config w) as [n ->]. reflexivity. Qed.

Lemma after_delay_counter self a config w key :
  counter (after_delay self a config w) key = counter w key.
Proof. unfold counter. now rewrite after_delay_store. Qed.

End Frames.

(** Induction on a run, with the names used throughout: [Hle] for the loop
    test, [Hop] for what the invocation did, [Heq] for the last-attempt
    test, [Hr] for the classification, [IH] for the rest of the run. *)
Ltac induction_on_run H :=
  induction H as [a errs w Hle | a errs w v s' Hle Hop
                 | a errs w t s' Hle Hop Heq | a errs w t s' Hle Hop Heq Hr
                 | a errs w t s' k last r w' Hle Hop Heq Hr Hrun IH].

Section Shape.
Context {St T : Type}.
Variables (self : RetryProps) (operation : @Operation St T) (config : MergedConfig).
Implicit Types (w : @World St) (a : Z) (errs : list Error).

Lemma terminal_events_store k key last w1 w2 :
  store w1 = store w2 ->
  terminal_events k key last w1 = terminal_events k key last w2.
Proof. unfold terminal_events, counter. now intros ->. Qed.

Lemma terminal_store_store k key last w1 w2 :
  store w1 = store w2 ->
  terminal_store k key last w1 = terminal_store k key last w2.
Proof. unfold terminal_store, counter. now intros ->. Qed.

(** The events of a run are invocations and sleeps, followed by the
    statistics updates of its ending; nothing else touches the store. *)
Lemma loop_run_shape a errs w k last r w' :
  loop_run self operation config a errs w k last r w' ->
  exists body,
    trace w' = (trace w ++ body ++ terminal_events k (outcome_key r) last w)%list
    /\ Forall call_or_sleep body
    /\ calls body = invocations k a last
    /\ Z.of_nat (length (sleeps body)) = last - a
    /\ store w' = terminal_store k (outcome_key r) last w
    /\ a <= last.
Proof.
  intros Hrun0. induction_on_run Hrun0.
  - exists []. cbn. rewrite app_nil_r.
    repeat apply conj;
      [reflexivity | apply Forall_nil_2
      | unfold calls, invocations; cbn; lia | cbn; lia | reflexivity | lia].
  - exists [EvCall]. cbn. rewrite <- app_assoc.
    repeat apply conj;
      [reflexivity | apply Forall_cons_2; [now left | apply Forall_nil_2]
      | unfold calls, invocations; cbn; lia | cbn; lia | reflexivity | lia].
  - exists [EvCall]. cbn. rewrite <- app_assoc.
    repeat apply conj;
      [reflexivity | apply Forall_cons_2; [now left | apply Forall_nil_2]
      | unfold calls, invocations; cbn; lia | cbn; lia | reflexivity | lia].
  - exists [EvCall]. cbn. rewrite <- app_assoc.
    repeat apply conj;
      [reflexivity | apply Forall_cons_2; [now left | apply Forall_nil_2]
      | unfold calls, invocations; cbn; lia | cbn; lia | reflexivity | lia].
  - destruct IH as (body & Htr & Hbody & Hcalls & Hsleeps & Hstore & Hlast).
    set (w1 := after_call w s') in *.
    assert (Hs : store (after_delay self a config w1) = store w).
    { now rewrite after_delay_store. }
    exists (EvCall :: EvSleep (fst (calculateDelay self a config w1)) :: body).
    rewrite (terminal_events_store _ _ _ _ w Hs) in Htr.
    rewrite (terminal_store_store _ _ _ _ w Hs) in Hstore.
    rewrite after_delay_trace in Htr. subst w1. cbn [trace after_call] in Htr.
    repeat apply conj.
    + rewrite Htr, <- !app_assoc. reflexivity.
    + apply Forall_cons_2; [now left|].
      apply Forall_cons_2; [right; eauto | exact Hbody].
    + revert Hcalls. unfold calls, invocations.
      cbn [List.filter is_call length]. destruct k; lia.
    + unfold sleeps in *. cbn [List.filter is_sleep length]. lia.
    + exact Hstore.
    + lia.
Qed.

End Shape.

(** ** Runs under an integer [maxAttempts] *)

Lemma Qle_bool_inject (a n : Z) (q : Q) :
  (q == inject_Z n)%Q -> Qle_bool (inject_Z a) q = (a <=? n)%Z.
Proof.
  intros Hq. apply eq_true_iff_eq.
  rewrite Qle_bool_iff, Z.leb_le, Hq, <- Zle_Qle. reflexivity.
Qed.

Lemma Qeq_bool_inject (a n : Z) (q : Q) :
  (q == inject_Z n)%Q -> Qeq_bool (inject_Z a) q = (a =? n)%Z.
Proof.
  intros Hq. apply eq_true_iff_eq.
  rewrite Qeq_bool_iff, Z.eqb_eq, Hq. rewrite inject_Z_injective. reflexivity.
Qed.

Section IntegerRuns.
Context {St T : Type}.
Variables (self : RetryProps) (operation : @Operation St T) (config : MergedConfig).
Variable n : Z.
Hypothesis Hmax : (m_maxAttempts config == inject_Z n)%Q.
Implicit Types (w : @World St) (a : Z) (errs : list Error).

(** With an integer [maxAttempts], a run that enters the loop at an attempt
    within the budget never falls through, and ends within the budget. *)
Lemma loop_run_within_budget a errs w k last r w' :
  loop_run self operation config a errs w k last r w' ->
  a <= n -> k <> FellThrough /\ last <= n.
Proof.
  intros Hrun0. induction_on_run Hrun0;
    intros Han; try (split; [discriminate | exact Han]).
  - rewrite (Qle_bool_inject a n) in Hle by exact Hmax. lia.
  - rewrite (Qeq_bool_inject a n) in Heq by exact Hmax. apply IH. lia.
Qed.

(** How the promise settles, by the ending of the run. *)
Lemma loop_run_settles a errs w k last r w' :
  loop_run self operation config a errs w k last r w' ->
  match k with
  | Succeeded => exists v es, r = Resolved (mkRetryResult v last es true)
  | Exhausted =>
      exists e es, r = Rejected (mkError (exhausted_message self last e es) None)
  | NonRetryable =>
      exists e, r = Rejected (mkError (non_retryable_message self e) None)
               /\ isRetryableError self e = false
  | FellThrough => r = Rejected (mkError (unexpected_message self) None)
  end.
Proof.
  induction 1; eauto.
Qed.

Lemma thrown_by_S (k : nat) (s s' : St) (t : Thrown) :
  operation s = (inr t, s') ->
  thrown_by operation (S k) s = to_Error t :: thrown_by operation k s'.
Proof. intros H. cbn [thrown_by]. rewrite H. reflexivity. Qed.

Lemma state_after_S (k : nat) (s s' : St) (x : T + Thrown) :
  operation s = (x, s') ->
  state_after operation (S k) s = state_after operation k s'.
Proof. intros H. cbn [state_after]. rewrite H. reflexivity. Qed.

Hypothesis Hfails : always_fails_retryable self operation.

Lemma thrown_by_length (k : nat) : forall s, length (thrown_by operation k s) = k.
Proof.
  induction k as [|k IH]; intros s; [reflexivity|].
  destruct (Hfails s) as (t & Ht & _).
  destruct (operation s) as [x s'] eqn:Hop. cbn [fst] in Ht. subst x.
  rewrite (thrown_by_S k s s' t Hop). cbn [length]. now rewrite IH.
Qed.

(** A run over an operation that always fails with a retryable error uses
    the whole budget: it ends exhausted at attempt [n], and the error it
    raises lists, after the errors collected before, the errors of all the
    invocations it made, in order. *)
Lemma loop_run_always_fails a errs w k last r w' :
  loop_run self operation config a errs w k last r w' ->
  a <= n ->
  k = Exhausted /\ last = n
  /\ opstate w' = state_after operation (Z.to_nat (n - a + 1)) (opstate w)
  /\ exists e front,
       thrown_by operation (Z.to_nat (n - a + 1)) (opstate w) = (front ++ [e])%list
       /\ r = Rejected (mkError (exhausted_message self n e
                                   (errs ++ front ++ [e])%list) None).
Proof.
  intros Hrun0. induction_on_run Hrun0; intros Han.
  - rewrite (Qle_bool_inject a n) in Hle by exact Hmax. lia.
  - destruct (Hfails (opstate w)) as (t & Ht & _).
    rewrite Hop in Ht. discriminate.
  - rewrite (Qeq_bool_inject a n) in Heq by exact Hmax.
    assert (a = n) by lia. subst a.
    replace (Z.to_nat (n - n + 1)) with 1%nat by lia.
    repeat apply conj; [reflexivity | reflexivity | |].
    + rewrite (state_after_S 0 _ s' _ Hop). reflexivity.
    + exists (to_Error t), []. split; [|reflexivity].
      rewrite (thrown_by_S 0 _ s' t Hop). reflexivity.
  - destruct (Hfails (opstate w)) as (t' & Ht' & Hr').
    rewrite Hop in Ht'. cbn [fst] in Ht'. injection Ht' as <-.
    rewrite Hr in Hr'. discriminate.
  - rewrite (Qeq_bool_inject a n) in Heq by exact Hmax.
    rewrite (Qle_bool_inject a n) in Hle by exact Hmax.
    destruct IH as (Hk & Hlast & Hst & e & front & Hthrown & Hrej); [lia|].
    rewrite after_delay_opstate in Hst, Hthrown. cbn [opstate after_call] in *.
    replace (n - (a + 1) + 1) with (n - a) in * by lia.
    replace (Z.to_nat (n - a + 1)) with (S (Z.to_nat (n - a))) by lia.
    repeat apply conj; [exact Hk | exact Hlast | |].
    + rewrite (state_after_S _ _ s' _ Hop). exact Hst.
    + exists e, (to_Error t :: front). split.
      * rewrite (thrown_by_S _ _ s' t Hop), Hthrown. reflexivity.
      * rewrite Hrej. rewrite <- app_assoc. reflexivity.
Qed.

End IntegerRuns.

(** ** Counters *)

Section Counters.
Context {St : Type}.
Implicit Types (w : @World St) (key : string) (m : gmap string Z).

Lemma get_insert_eq m key (v : Z) : <[key := v]> m !! key ?? 0 = v.
Proof. now rewrite lookup_insert_eq. Qed.

Lemma get_insert_ne m key key' (v : Z) :
  key <> key' -> <[key := v]> m !! key' ?? 0 = m !! key' ?? 0.
Proof. intros H. now rewrite lookup_insert_ne. Qed.

Lemma counted_totalOperations w :
  counter (counted w) "totalOperations" = counter w "totalOperations" + 1.
Proof. unfold counter, counted. cbn [store]. apply get_insert_eq. Qed.

Lemma counted_other w key :
  key <> "totalOperations" -> counter (counted w) key = counter w key.
Proof.
  intros H. unfold counter, counted. cbn [store].
  apply get_insert_ne. congruence.
Qed.

Lemma counted_trace w :
  trace (counted w)
  = (trace w ++ [EvSet "totalOperations" (counter w "totalOperations" + 1)])%list.
Proof. reflexivity. Qed.

End Counters.

(** ** The executor *)

(** Below 1, the loop test fails at the first attempt: the call is counted
    and rejected, and nothing else happens. *)
Lemma retry_below_one {St T : Type} (self : RetryProps)
    (operation : @Operation St T) (opts : option RetryConfig) (w : @World St) :
  (m_maxAttempts (mergeOptions self opts) < 1)%Q ->
  retry self operation opts w
  = (Some (Rejected (mkError (unexpected_message self) None)), counted w).
Proof.
  intros Hlt.
  assert (Hle : Qle_bool (inject_Z 1) (m_maxAttempts (mergeOptions self opts))
                = false).
  { apply not_true_is_false. rewrite Qle_bool_iff.
    apply Qlt_not_le. exact Hlt. }
  unfold retry. unfold bind at 1 2. unfold state_get, state_set, retry_fuel.
  now apply loop_fell_through.
Qed.

(** C10: when the effective [maxAttempts] is below 1 the operation is not
    invoked at all; the call is still counted in [totalOperations], no other
    counter moves, and the promise is rejected with "Unexpected retry loop
    completion".  So a store in which [totalOperations] was the sum of
    [successfulOperations] and [failedOperations] no longer is.  Neither
    [create] nor [mergeOptions] checks [maxAttempts]: they take any number. *)
Theorem retry_without_attempts {St T : Type} (self : RetryProps)
    (operation : @Operation St T) (opts : option RetryConfig) (w : @World St) :
  (m_maxAttempts (mergeOptions self opts) < 1)%Q ->
  exists w',
    retry self operation opts w
    = (Some (Rejected (mkError (unexpected_message self) None)), w')
    /\ trace w'
       = (trace w ++ [EvSet "totalOperations" (counter w "totalOperations" + 1)])%list
    /\ opstate w' = opstate w
    /\ counter w' "totalOperations" = counter w "totalOperations" + 1
    /\ counter w' "successfulOperations" = counter w "successfulOperations"
    /\ counter w' "failedOperations" = counter w "failedOperations"
    /\ counter w' "totalRetries" = counter w "totalRetries"
    /\ (counter w "totalOperations"
        = counter w "successfulOperations" + counter w "failedOperations" ->
        counter w' "totalOperations"
        <> counter w' "successfulOperations" + counter w' "failedOperations")
    /\ (forall cfg, unexpected_message (create cfg)
                    = "[retry] Unexpected retry loop completion")
    /\ (forall q b d j k e,
          maxAttempts (create (mkRetryConfig (Some q) b d j k e)) = q
          /\ m_maxAttempts
               (mergeOptions self (Some (mkRetryConfig (Some q) b d j k e))) = q).
Proof.
  intros Hlt. exists (counted w).
  assert (Hne : forall key, key <> "totalOperations" ->
                            counter (counted w) key = counter w key)
    by (intros; now apply counted_other).
  rewrite counted_totalOperations, !Hne by discriminate.
  repeat apply conj; try reflexivity.
  - now apply retry_below_one.
  - lia.
  - intros; split; reflexivity.
Qed.

Lemma retry_without_attempts_witness :
  let self := create (mkRetryConfig (Some 0%Q) None None None None None) in
  exists w',
    retry self (always_returns tt) None (fresh_world tt (fun _ => 0%Q))
    = (Some (Rejected (mkError "[retry] Unexpected retry loop completion" None)),
       w')
    /\ trace w' = [EvSet "totalOperations" 1].
Proof.
  intros self.
  destruct (retry_without_attempts self (always_returns tt) None
              (fresh_world tt (fun _ => 0%Q)))
    as (w' & Hr & Htr & _).
  - reflexivity.
  - exists w'. split; [exact Hr | exact Htr].
Defined.

Section TerminalCounters.
Context {St : Type}.
Implicit Types (w : @World St) (key : string).

(** The counters after the two updates of a terminal outcome. *)
Lemma terminal_store_counters (k : ending) key (last : Z) w w' :
  k <> FellThrough -> key <> "totalRetries" ->
  store w' = terminal_store k key last w ->
  counter w' key = counter w key + 1
  /\ counter w' "totalRetries" = counter w "totalRetries" + (last - 1)
  /\ forall key', key' <> key -> key' <> "totalRetries" ->
                  counter w' key' = counter w key'.
Proof.
  intros Hk Hkey Hst.
  assert (Hs : store w'
               = <["totalRetries" := counter w "totalRetries" + (last - 1)]>
                   (<[key := counter w key + 1]> (store w))).
  { rewrite Hst. now destruct k. }
  unfold counter at 1 3 5. rewrite Hs. repeat apply conj.
  - rewrite get_insert_ne by congruence. apply get_insert_eq.
  - apply get_insert_eq.
  - intros key' H1 H2. rewrite !get_insert_ne by congruence. reflexivity.
Qed.

Lemma after_call_counter w (s' : St) key :
  counter (after_call w s') key = counter w key.
Proof. reflexivity. Qed.

Lemma after_call_trace w (s' : St) :
  trace (after_call w s') = (trace w ++ [EvCall])%list.
Proof. reflexivity. Qed.

Lemma record_outcome_trace key (a : Z) w :
  trace (record_outcome key a w)
  = (trace w ++ [EvSet key (counter w key + 1);
                 EvSet "totalRetries" (counter w "totalRetries" + (a - 1))])%list.
Proof. reflexivity. Qed.

Lemma record_outcome_store key (a : Z) w :
  store (record_outcome key a w) = terminal_store Exhausted key a w.
Proof. reflexivity. Qed.

End TerminalCounters.

(** C1, as the claim words it, fails: the error that ends the call is a
    plain [Error], which holds a message and nothing else, so it does not
    carry the errors seen.  Operations whose errors differ in their codes,
    or in where one message ends and the next begins, are rejected with
    the same error, and no function of that error returns the list of the
    errors thrown. *)
Lemma retry_exhausted_error_is_a_text :
  let self := create (mkRetryConfig (Some 2%Q) None None (Some false) None None) in
  let w := fresh_world tt (fun _ => 0%Q) in
  let e1 := mkError "Connection timeout" (Some "ETIMEDOUT") in
  let e2 := mkError "Connection timeout" None in
  let op1 := always_throws (T := unit) e1 in
  let op2 := always_throws (T := unit) e2 in
  let self3 := create (mkRetryConfig (Some 3%Q) None None (Some false) None None) in
  let w3 := fresh_world 0%nat (fun _ => 0%Q) in
  let es1 := [mkError "timeout, reset" None; mkError "refused" None;
              mkError "network" None] in
  let es2 := [mkError "timeout" None; mkError "reset, refused" None;
              mkError "network" None] in
  (always_fails_retryable self op1 /\ always_fails_retryable self op2
   /\ thrown_by op1 2 (opstate w) = [e1; e1]
   /\ thrown_by op2 2 (opstate w) = [e2; e2]
   /\ fst (retry self op1 None w)
      = Some (Rejected (mkError
          "[retry] Operation failed after 2 attempts. Last error: Connection timeout. All errors: Connection timeout, Connection timeout"
          None))
   /\ fst (retry self op2 None w) = fst (retry self op1 None w))
  /\ (thrown_by (throws_in_turn es1 tt) 3 (opstate w3) = es1
      /\ thrown_by (throws_in_turn es2 tt) 3 (opstate w3) = es2
      /\ fst (retry self3 (throws_in_turn es1 tt) None w3)
         = Some (Rejected (mkError
             "[retry] Operation failed after 3 attempts. Last error: network. All errors: timeout, reset, refused, network"
             None))
      /\ fst (retry self3 (throws_in_turn es2 tt) None w3)
         = fst (retry self3 (throws_in_turn es1 tt) None w3))
  /\ ~ (exists errorsSeen : Error -> list Error,
          forall (operation : @Operation unit unit) (e : Error),
            fst (retry self operation None w) = Some (Rejected e) ->
            errorsSeen e = thrown_by operation 2 (opstate w)).
Proof.
  cbv zeta. split; [|split].
  - repeat apply conj; try (vm_compute; reflexivity);
      intros s; eexists; split; reflexivity.
  - repeat apply conj; vm_compute; reflexivity.
  - intros [errorsSeen H].
    pose proof (H (always_throws (mkError "Connection timeout" (Some "ETIMEDOUT")))
                  _ eq_refl) as H1.
    pose proof (H (always_throws (mkError "Connection timeout" None))
                  _ eq_refl) as H2.
    vm_compute in H1, H2. congruence.
Qed.

(** C1, as the code has it: with an integer [maxAttempts = n >= 1] and an
    operation that fails at every invocation with a retryable error,
    [retry] invokes the operation exactly [n] times and then rejects with
    an error without a code whose message is
    "[id] Operation failed after n attempts. Last error: m. All errors: l",
    where [m] is the message of the last error and [l] the messages of all
    [n] errors, in the order in which they were thrown, joined by ", ";
    [failedOperations] goes up by one and [totalRetries] by [n - 1]. *)
Theorem retry_exhausts_budget {St T : Type} (self : RetryProps)
    (operation : @Operation St T) (opts : option RetryConfig) (w : @World St)
    (n : Z) :
  1 <= n ->
  (m_maxAttempts (mergeOptions self opts) == inject_Z n)%Q ->
  always_fails_retryable self operation ->
  let errs := thrown_by operation (Z.to_nat n) (opstate w) in
  exists front e body w',
    errs = (front ++ [e])%list
    /\ length errs = Z.to_nat n
    /\ retry self operation opts w
       = (Some (Rejected (mkError
            ("[" ++ dna_id (dna self) ++ "] Operation failed after "
             ++ string_of_Z n ++ " attempts. Last error: " ++ message e
             ++ ". All errors: " ++ join ", " (map message errs))
            None)), w')
    /\ trace w'
       = (trace w
          ++ EvSet "totalOperations" (counter w "totalOperations" + 1)
             :: body
          ++ [EvSet "failedOperations" (counter w "failedOperations" + 1);
              EvSet "totalRetries" (counter w "totalRetries" + (n - 1))])%list
    /\ Forall call_or_sleep body
    /\ calls body = n
    /\ opstate w' = state_after operation (Z.to_nat n) (opstate w)
    /\ counter w' "failedOperations" = counter w "failedOperations" + 1
    /\ counter w' "totalRetries" = counter w "totalRetries" + (n - 1)
    /\ counter w' "totalOperations" = counter w "totalOperations" + 1
    /\ counter w' "successfulOperations" = counter w "successfulOperations".
Proof.
  intros Hn Hmax Hfails errs.
  destruct (retry_run self operation opts w) as (k & last & r & w' & Hret & Hrun).
  destruct (loop_run_always_fails self operation _ n Hmax Hfails _ _ _ _ _ _ _ Hrun Hn)
    as (-> & -> & Hop & e & front & Hthrown & ->).
  destruct (loop_run_shape self operation _ _ _ _ _ _ _ _ Hrun)
    as (body & Htr & Hbody & Hcalls & _ & Hstore & _).
  replace (n - 1 + 1) with n in * by lia.
  cbn [opstate counted] in Hop, Hthrown.
  cbn [outcome_key] in Htr, Hstore.
  destruct (terminal_store_counters Exhausted "failedOperations" n (counted w) w')
    as (Hf & Hr & Hother); [discriminate | discriminate | exact Hstore |].
  exists front, e, body, w'. subst errs. repeat apply conj.
  - exact Hthrown.
  - now apply (thrown_by_length self operation Hfails).
  - rewrite Hret, Hthrown. reflexivity.
  - rewrite Htr, counted_trace, <- app_assoc. cbn [terminal_events].
    rewrite !counted_other by discriminate. reflexivity.
  - exact Hbody.
  - rewrite Hcalls. unfold invocations. lia.
  - exact Hop.
  - rewrite Hf, counted_other by discriminate. reflexivity.
  - rewrite Hr, counted_other by discriminate. reflexivity.
  - rewrite Hother by discriminate. apply counted_totalOperations.
  - rewrite Hother, counted_other by discriminate. reflexivity.
Qed.

Lemma retry_exhausts_budget_witness :
  let self := create (mkRetryConfig (Some 2%Q) None None (Some false) None None) in
  let e := mkError "Connection timeout" (Some "ETIMEDOUT") in
  exists w',
    retry self (always_throws (T := unit) e) None (fresh_world tt (fun _ => 0%Q))
    = (Some (Rejected (mkError
         "[retry] Operation failed after 2 attempts. Last error: Connection timeout. All errors: Connection timeout, Connection timeout"
         None)), w')
    /\ counter w' "failedOperations" = 1
    /\ counter w' "totalRetries" = 1.
Proof.
  intros self e.
  destruct (retry_exhausts_budget self (always_throws (T := unit) e) None
              (fresh_world tt (fun _ => 0%Q)) 2)
    as (front & e' & body & w' & Herrs & _ & Hret & _ & _ & _ & _ & Hf & Hr & _).
  - lia.
  - reflexivity.
  - intros s. exists (ThrownError e). split; reflexivity.
  - exists w'.
    assert (He : e' = e).
    { change (([e] ++ [e])%list = (front ++ [e'])%list) in Herrs.
      apply app_inj_tail in Herrs as [_ He]. now symmetry. }
    subst e'. repeat apply conj; [exact Hret | exact Hf | exact Hr].
Defined.

(** The message "Invalid authentication credentials" contains none of the
    keywords, so such an error is retryable only by its code. *)
Lemma invalid_credentials_not_retryable (self : RetryProps) (ecode : option string) :
  (forall c, ecode = Some c -> ~ In c (retryableErrors self)) ->
  isRetryableError self (mkError "Invalid authentication credentials" ecode) = false.
Proof.
  intros Hcode. unfold isRetryableError. cbn [code message].
  destruct ecode as [c|]; [|reflexivity].
  destruct (truthy_string c && has (retryableErrors self) c) eqn:Hg;
    [|reflexivity].
  apply andb_true_iff in Hg as [_ Hh]. apply has_spec in Hh.
  now destruct (Hcode c eq_refl).
Qed.

(** C3, as the claim words it, fails when [maxAttempts] is 1: the only
    attempt is then also the last one, and the error raised is the
    "Operation failed after 1 attempts" error, not the "Non-retryable
    error" one. *)
Lemma retry_invalid_credentials_single_attempt :
  let self := create (mkRetryConfig (Some 1%Q) None None None None None) in
  let err := mkError "Invalid authentication credentials" None in
  let r := fst (retry self (always_throws (T := unit) err) None
                  (fresh_world tt (fun _ => 0%Q))) in
  (1 <= maxAttempts self)%Q
  /\ r = Some (Rejected (mkError
         "[retry] Operation failed after 1 attempts. Last error: Invalid authentication credentials. All errors: Invalid authentication credentials"
         None))
  /\ r <> Some (Rejected (mkError (non_retryable_message self err) None)).
Proof.
  cbv zeta. repeat apply conj.
  - vm_compute. congruence.
  - vm_compute. reflexivity.
  - vm_compute. congruence.
Qed.

(** C3, as the code has it: for every [maxAttempts >= 1], a call whose
    operation fails at its first invocation with the message "Invalid
    authentication credentials" and no retryable code invokes the operation
    exactly once, does not sleep, counts one failed operation and no retry,
    and rejects: with the "Non-retryable error" error when [maxAttempts] is
    not 1, and with the "Operation failed after 1 attempts" error when it
    is 1. *)
Theorem retry_invalid_credentials {St T : Type} (self : RetryProps)
    (operation : @Operation St T) (opts : option RetryConfig) (w : @World St)
    (ecode : option string) (s' : St) :
  let err := mkError "Invalid authentication credentials" ecode in
  let max := m_maxAttempts (mergeOptions self opts) in
  operation (opstate w) = (inr (ThrownError err), s') ->
  (forall c, ecode = Some c -> ~ In c (retryableErrors self)) ->
  (1 <= max)%Q ->
  exists w',
    retry self operation opts w
    = (Some (Rejected (mkError
         (if Qeq_bool 1 max then exhausted_message self 1 err [err]
          else non_retryable_message self err) None)), w')
    /\ trace w'
       = (trace w
          ++ [EvSet "totalOperations" (counter w "totalOperations" + 1);
              EvCall;
              EvSet "failedOperations" (counter w "failedOperations" + 1);
              EvSet "totalRetries" (counter w "totalRetries" + 0)])%list
    /\ opstate w' = s'
    /\ counter w' "failedOperations" = counter w "failedOperations" + 1
    /\ counter w' "totalRetries" = counter w "totalRetries".
Proof.
  intros err max Hop Hcode Hmax.
  assert (Hle : Qle_bool (inject_Z 1) max = true) by now apply Qle_bool_iff.
  assert (Hnr : isRetryableError self (to_Error (ThrownError err)) = false)
    by now apply invalid_credentials_not_retryable.
  set (w1 := record_outcome "failedOperations" 1 (after_call (counted w) s')).
  assert (Hret : retry self operation opts w
                 = (Some (Rejected (mkError
                      (if Qeq_bool 1 max then exhausted_message self 1 err [err]
                       else non_retryable_message self err) None)), w1)).
  { unfold retry. unfold bind at 1 2. unfold state_get, state_set, retry_fuel.
    fold (counter w "totalOperations"). fold (counted w).
    destruct (Qeq_bool 1 max) eqn:Heq.
    - now apply (loop_exhausted self operation _ _ 1 [] (counted w)
                   (ThrownError err) s').
    - now apply (loop_non_retryable self operation _ _ 1 [] (counted w)
                   (ThrownError err) s'). }
  destruct (terminal_store_counters Exhausted "failedOperations" 1
              (after_call (counted w) s') w1)
    as (Hf & Hr & _);
    [discriminate | discriminate | apply record_outcome_store |].
  rewrite after_call_counter, counted_other in Hf, Hr by discriminate.
  exists w1. repeat apply conj.
  - exact Hret.
  - subst w1. rewrite record_outcome_trace, after_call_trace, counted_trace.
    rewrite !after_call_counter, !counted_other by discriminate.
    rewrite <- !app_assoc. reflexivity.
  - reflexivity.
  - exact Hf.
  - rewrite Hr. lia.
Qed.

Lemma retry_invalid_credentials_witness :
  let self := create no_options in
  let err := mkError "Invalid authentication credentials" None in
  exists w',
    retry self (always_throws (T := unit) err) None (fresh_world tt (fun _ => 0%Q))
    = (Some (Rejected (mkError
         "[retry] Non-retryable error: Invalid authentication credentials" None)),
       w')
    /\ trace w' = [EvSet "totalOperations" 1; EvCall;
                   EvSet "failedOperations" 1; EvSet "totalRetries" 0].
Proof.
  intros self err.
  destruct (retry_invalid_credentials self (always_throws (T := unit) err) None
              (fresh_world tt (fun _ => 0%Q)) None tt)
    as (w' & Hret & Htr & _).
  - reflexivity.
  - intros c Hc. discriminate.
  - vm_compute. congruence.
  - exists w'. split; [exact Hret | exact Htr].
Defined.

(** ** Statistics updates of a call *)

Lemma sets_other_two (key k1 : string) (v1 v2 : Z) :
  key <> k1 -> key <> "totalRetries" ->
  sets key [EvSet k1 v1; EvSet "totalRetries" v2] = [].
Proof.
  intros H1 H2. unfold sets. cbn [List.filter is_set].
  destruct (String.eqb_spec k1 key); [congruence|].
  destruct (String.eqb_spec "totalRetries" key); [congruence | reflexivity].
Qed.

(** C8 fails on the code.  A call whose effective [maxAttempts] is 0, which
    nothing rejects, reaches the [throw] after the loop, of which the source
    says that it should never be reached: the call is counted in
    [totalOperations], and no other counter is updated at all, where each
    is to be updated exactly once. *)
Lemma retry_zero_attempts_updates_nothing :
  let self := create no_options in
  let opts := Some (mkRetryConfig (Some 0%Q) None None None None None) in
  let w' := snd (retry self (always_returns tt) opts
                   (fresh_world tt (fun _ => 0%Q))) in
  trace w' = [EvSet "totalOperations" 1]
  /\ ~ updated_once (trace w').
Proof.
  cbv zeta. split.
  - vm_compute. reflexivity.
  - intros (_ & H & _). vm_compute in H. discriminate.
Qed.

(** X21: the statistics updates of a call.  In every call the first event
    is the update of [totalOperations], by one, and it is the only update
    of that counter;
    the attempts that follow consist of invocations and sleeps only, so no
    counter moves on an intermediate failure; the call ends with either no
    further update or the two updates of its outcome.  When the effective
    [maxAttempts] is an integer [n >= 1] it is the latter: one of
    [successfulOperations] and [failedOperations], according to the
    outcome, goes up by one, [totalRetries] goes up by the number of
    invocations less one, and each is updated exactly once.  When the
    effective [maxAttempts] is below 1 it is the former, with no attempt. *)
Theorem retry_stats_discipline {St T : Type} (self : RetryProps)
    (operation : @Operation St T) (opts : option RetryConfig) (w : @World St) :
  exists r w' body fin,
    let first := EvSet "totalOperations" (counter w "totalOperations" + 1) in
    let outcome :=
      [EvSet (outcome_key r) (counter w (outcome_key r) + 1);
       EvSet "totalRetries" (counter w "totalRetries" + (calls body - 1))] in
    retry self operation opts w = (Some r, w')
    /\ trace w' = (trace w ++ first :: body ++ fin)%list
    /\ Forall call_or_sleep body
    /\ (fin = [] \/ fin = outcome)
    /\ sets "totalOperations" (first :: body ++ fin) = [first]
    /\ ((exists n, 1 <= n
                   /\ (m_maxAttempts (mergeOptions self opts) == inject_Z n)%Q) ->
        fin = outcome /\ updated_once (first :: body ++ fin))
    /\ ((m_maxAttempts (mergeOptions self opts) < 1)%Q ->
        body = [] /\ fin = []).
Proof.
  destruct (retry_run self operation opts w) as (k & last & r & w' & Hret & Hrun).
  destruct (loop_run_shape self operation _ _ _ _ _ _ _ _ Hrun)
    as (body & Htr & Hbody & Hcalls & _ & _ & _).
  exists r, w', body, (terminal_events k (outcome_key r) last (counted w)).
  cbv zeta.
  assert (Hkey : outcome_key r <> "totalOperations"
                 /\ outcome_key r <> "totalRetries")
    by (destruct r; split; discriminate).
  destruct Hkey as [Hk1 Hk2].
  assert (Hfin : k <> FellThrough ->
                 terminal_events k (outcome_key r) last (counted w)
                 = [EvSet (outcome_key r) (counter w (outcome_key r) + 1);
                    EvSet "totalRetries"
                          (counter w "totalRetries" + (calls body - 1))]).
  { intros Hk. rewrite Hcalls.
    replace (invocations k 1 last - 1) with (last - 1)
      by (unfold invocations; destruct k; [lia..|congruence]).
    rewrite <- (counted_other w (outcome_key r)) by exact Hk1.
    rewrite <- (counted_other w "totalRetries") by discriminate.
    now destruct k. }
  assert (Hcases : terminal_events k (outcome_key r) last (counted w) = []
                   \/ terminal_events k (outcome_key r) last (counted w)
                      = [EvSet (outcome_key r) (counter w (outcome_key r) + 1);
                         EvSet "totalRetries"
                               (counter w "totalRetries" + (calls body - 1))]).
  { destruct k; [right; apply Hfin; discriminate.. | now left]. }
  assert (Htot : forall fin,
             fin = [] \/ fin = [EvSet (outcome_key r)
                                      (counter w (outcome_key r) + 1);
                                EvSet "totalRetries"
                                      (counter w "totalRetries" + (calls body - 1))] ->
             sets "totalOperations"
               (EvSet "totalOperations" (counter w "totalOperations" + 1)
                :: body ++ fin)
             = [EvSet "totalOperations" (counter w "totalOperations" + 1)]).
  { intros fin Hf.
    change (sets "totalOperations" (?e :: ?l)) with (e :: sets "totalOperations" l).
    rewrite sets_app, (sets_call_or_sleep _ _ Hbody).
    destruct Hf as [->| ->]; [reflexivity|].
    rewrite sets_other_two by congruence. reflexivity. }
  repeat apply conj.
  - exact Hret.
  - rewrite Htr, counted_trace, <- app_assoc. reflexivity.
  - exact Hbody.
  - exact Hcases.
  - now apply Htot.
  - intros (n & Hn & Hmax).
    destruct (loop_run_within_budget self operation _ n Hmax _ _ _ _ _ _ _ Hrun Hn)
      as [Hk _].
    rewrite (Hfin Hk). split; [reflexivity|].
    repeat apply conj.
    + rewrite Htot by now right. reflexivity.
    + change (sets "totalRetries" (?e :: ?l)) with (sets "totalRetries" l).
      rewrite sets_app, (sets_call_or_sleep _ _ Hbody).
      destruct r; reflexivity.
    + change (sets "successfulOperations" (?e :: ?l))
        with (sets "successfulOperations" l).
      change (sets "failedOperations" (?e :: ?l))
        with (sets "failedOperations" l).
      rewrite !sets_app, !(sets_call_or_sleep _ _ Hbody).
      destruct r; reflexivity.
  - intros Hlt. rewrite (retry_below_one self operation opts w Hlt) in Hret.
    injection Hret as _ <-.
    apply app_eq_nil, (app_inv_head (trace (counted w))).
    rewrite app_nil_r. symmetry. exact Htr.
Qed.

Lemma retry_stats_discipline_witness :
  let self := create (mkRetryConfig None None None (Some false) None None) in
  let op := fails_then_returns 2 (mkError "Temporary failure" None) "success" in
  exists w',
    snd (retry self op None (fresh_world 0%nat (fun _ => 0%Q))) = w'
    /\ updated_once (trace w').
Proof.
  intros self op.
  destruct (retry_stats_discipline self op None (fresh_world 0%nat (fun _ => 0%Q)))
    as (r & w' & body & fin & Hret & Htr & _ & _ & _ & Hint & _).
  destruct Hint as [_ Hup].
  - exists 3. split; [lia | reflexivity].
  - exists w'. split; [now rewrite Hret|].
    rewrite Htr. exact Hup.
Defined.

(** ** Per-call overrides *)

(** [mergeOptions] is the overlay the specification describes: a field of
    the result is the override when one is given, else the instance's. *)
Lemma mergeOptions_overlay (self : RetryProps) (o : RetryConfig) :
  let c := mergeOptions self (Some o) in
  m_maxAttempts c = cfg_maxAttempts o ?? maxAttempts self
  /\ m_baseDelay c = cfg_baseDelay o ?? baseDelay self
  /\ m_maxDelay c = cfg_maxDelay o ?? maxDelay self
  /\ m_jitter c = cfg_jitter o ?? jitter self
  /\ m_backoffMultiplier c = cfg_backoffMultiplier o ?? backoffMultiplier self
  /\ m_retryableErrors c = cfg_retryableErrors o ?? retryableErrors self.
Proof. repeat split. Qed.

Section Overrides.
Context {St T : Type}.
Variables (self : RetryProps) (operation : @Operation St T).

(** The loop reads nothing of the merged configuration but [maxAttempts]. *)
Lemma retry_loop_config (cfg cfg' : MergedConfig) :
  m_maxAttempts cfg = m_maxAttempts cfg' ->
  forall fuel a errs (w : @World St),
    retry_loop self operation cfg fuel a errs w
    = retry_loop self operation cfg' fuel a errs w.
Proof.
  intros Hm. induction fuel as [|fuel IH]; intros a errs w; [reflexivity|].
  destruct (Qle_bool (inject_Z a) (m_maxAttempts cfg)) eqn:Hle.
  - destruct (operation (opstate w)) as [[v|t] s'] eqn:Hop.
    + rewrite !(loop_succeeded _ _ _ _ _ _ _ v s'); congruence.
    + destruct (Qeq_bool (inject_Z a) (m_maxAttempts cfg)) eqn:Heq.
      * rewrite !(loop_exhausted _ _ _ _ _ _ _ t s'); congruence.
      * destruct (isRetryableError self (to_Error t)) eqn:Hr.
        -- rewrite !(loop_retried _ _ _ _ _ _ _ t s'); try congruence.
           apply IH.
        -- rewrite !(loop_non_retryable _ _ _ _ _ _ _ t s'); congruence.
  - rewrite !loop_fell_through; congruence.
Qed.

(** X17: of the overrides of a call, only [maxAttempts] has any effect: the
    call settles in the same way and leaves the same world as the call
    that overrides [maxAttempts] alone, with the effective value. *)
Lemma retry_only_maxAttempts (opts : option RetryConfig) (w : @World St) :
  retry self operation opts w
  = retry self operation
      (Some (only_maxAttempts (m_maxAttempts (mergeOptions self opts)))) w.
Proof.
  unfold retry. unfold bind at 1 2 3 4. unfold state_get, state_set.
  apply retry_loop_config. reflexivity.
Qed.

End Overrides.

(** C2 fails on the code.  [mergeOptions] builds the effective policy, but
    [calculateDelay] and [isRetryableError] read the instance's policy.  On
    an instance with baseDelay 100 and no jitter, a call that overrides
    baseDelay to 10 still sleeps 100 ms after its first failed attempt,
    where the effective policy prescribes 10; and a call that overrides the
    retryable codes to EAUTH still rejects an error with that code as
    non-retryable. *)
Theorem retry_overrides_ignored :
  let self := create (mkRetryConfig None (Some 100%Q) None (Some false) None None) in
  let w := fresh_world 0%nat (fun _ => 0%Q) in
  let faster := Some (mkRetryConfig None (Some 10%Q) None None None None) in
  let op := fails_then_returns 1 (mkError "timeout" None) "ok" in
  let codes := Some (mkRetryConfig None None None None None (Some ["EAUTH"])) in
  let denied := mkError "denied" (Some "EAUTH") in
  effective_delay (mergeOptions self faster) 1 = 10
  /\ sleeps (trace (snd (retry self op faster w))) = [EvSleep (Finite 100)]
  /\ has (m_retryableErrors (mergeOptions self codes)) "EAUTH" = true
  /\ fst (retry self (fails_then_returns 1 denied "ok") codes w)
     = Some (Rejected (mkError "[retry] Non-retryable error: denied" None)).
Proof.
  cbv zeta. repeat apply conj; vm_compute; reflexivity.
Qed.

(** ** Statistics snapshots *)

Section Snapshots.
Context {St : Type}.
Implicit Types (w : @World St) (self : RetryProps).

(** What [getStats] returns, field by field, and that it leaves the world
    as it is. *)
Lemma getStats_eq self w :
  getStats self w
  = ({| successfulOperations := counter w "successfulOperations";
        failedOperations := counter w "failedOperations";
        totalRetries := counter w "totalRetries";
        averageAttempts := inject_Z (counter w "averageAttempts");
        totalOperations := counter w "totalOperations";
        successRate :=
          (inject_Z (or_else (store w !! "successfulOperations") 0)
           / inject_Z (or_else (store w !! "totalOperations") 1))%Q;
        config := {| sc_maxAttempts := maxAttempts self;
                     sc_baseDelay := baseDelay self;
                     sc_maxDelay := maxDelay self;
                     sc_jitter := jitter self;
                     sc_backoffMultiplier := backoffMultiplier self;
                     sc_retryableErrors := retryableErrors self |} |}, w).
Proof. reflexivity. Qed.

Lemma or_else_counter w key (d : Z) :
  counter w key <> 0 -> or_else (store w !! key) d = counter w key.
Proof.
  unfold counter. destruct (store w !! key) as [[| |]|]; cbn; congruence.
Qed.

(** The success rate of [getStats] is the ratio of the counters once an
    operation was counted. *)
Lemma getStats_successRate self w :
  counter w "totalOperations" <> 0 ->
  (successRate (fst (getStats self w))
   == inject_Z (counter w "successfulOperations")
      / inject_Z (counter w "totalOperations"))%Q.
Proof.
  intros Ht. rewrite getStats_eq. cbn [fst successRate].
  rewrite (or_else_counter w "totalOperations") by exact Ht.
  replace (or_else (store w !! "successfulOperations") 0)
    with (counter w "successfulOperations"); [reflexivity|].
  unfold counter. destruct (store w !! "successfulOperations") as [[| |]|];
    reflexivity.
Qed.

(** The other [getStats] computes both derived fields from the counters,
    and yields 0 for both while no operation was counted. *)
Lemma RetryUnitTs_getStats_derived self w :
  let s := fst (RetryUnitTs.getStats self w) in
  let total := counter w "totalOperations" in
  (0 < total ->
   RetryUnitTs.successRate s
   = (inject_Z (counter w "successfulOperations") / inject_Z total)%Q
   /\ RetryUnitTs.averageAttempts s
      = (inject_Z (total + counter w "totalRetries") / inject_Z total)%Q)
  /\ (total = 0 ->
      RetryUnitTs.successRate s = 0%Q /\ RetryUnitTs.averageAttempts s = 0%Q).
Proof.
  cbv zeta. unfold RetryUnitTs.getStats, bind, ret, state_get.
  cbn [fst RetryUnitTs.successRate RetryUnitTs.averageAttempts].
  fold (counter w "totalOperations"). fold (counter w "totalRetries").
  fold (counter w "successfulOperations").
  split.
  - intros Hpos. apply Z.ltb_lt in Hpos. rewrite Hpos. split; reflexivity.
  - intros ->. split; reflexivity.
Qed.

End Snapshots.

(** [retry] never writes the key [averageAttempts]. *)
Lemma retry_keeps_averageAttempts {St T : Type} (self : RetryProps)
    (operation : @Operation St T) (opts : option RetryConfig) (w : @World St) :
  counter (snd (retry self operation opts w)) "averageAttempts"
  = counter w "averageAttempts".
Proof.
  destruct (retry_run self operation opts w) as (k & last & r & w' & Hret & Hrun).
  destruct (loop_run_shape self operation _ _ _ _ _ _ _ _ Hrun)
    as (body & _ & _ & _ & _ & Hstore & _).
  rewrite Hret. cbn [snd].
  rewrite <- (counted_other w "averageAttempts") by discriminate.
  unfold counter at 1. rewrite Hstore. unfold terminal_store.
  destruct k; try reflexivity;
    (rewrite !get_insert_ne; [reflexivity | destruct r; discriminate
                             | discriminate]).
Qed.


(** C7 fails on the code of [getStats].  [averageAttempts] is read from the
    key of that name, which [create] sets to 0 and [retry] never writes:
    after one call that succeeds at its first attempt the counters are 1
    operation and 0 retries, so the claimed value is (1 + 0) / 1 = 1, and
    [getStats] returns 0.  The [getStats] of the other copy of the class
    returns 1. *)
Theorem getStats_averageAttempts_stale :
  let self := create no_options in
  let w := snd (retry self (always_returns "ok") None
                  (fresh_world tt (fun _ => 0%Q))) in
  let s := fst (getStats self w) in
  totalOperations s = 1 /\ totalRetries s = 0
  /\ averageAttempts s = 0%Q
  /\ ~ (averageAttempts s
        == inject_Z (totalOperations s + totalRetries s)
           / inject_Z (totalOperations s))%Q
  /\ RetryUnitTs.averageAttempts (fst (RetryUnitTs.getStats self w)) = 1%Q.
Proof.
  cbv zeta. repeat apply conj; try (vm_compute; reflexivity).
  vm_compute. discriminate.
Qed.


(** ** Consistency of the counters *)

Section Consistency.
Context {St T : Type}.
Variables (self : RetryProps) (operation : @Operation St T).
Implicit Types (w : @World St).

(** The counters after a call, by the way its loop ended. *)
Lemma retry_counters (opts : option RetryConfig) w :
  exists k last r w',
    retry self operation opts w = (Some r, w')
    /\ counter w' "totalOperations" = counter w "totalOperations" + 1
    /\ match k with
       | FellThrough =>
           counter w' "successfulOperations" = counter w "successfulOperations"
           /\ counter w' "failedOperations" = counter w "failedOperations"
           /\ counter w' "totalRetries" = counter w "totalRetries"
       | Succeeded =>
           counter w' "successfulOperations"
           = counter w "successfulOperations" + 1
           /\ counter w' "failedOperations" = counter w "failedOperations"
           /\ counter w' "totalRetries" = counter w "totalRetries" + (last - 1)
       | _ =>
           counter w' "successfulOperations" = counter w "successfulOperations"
           /\ counter w' "failedOperations" = counter w "failedOperations" + 1
           /\ counter w' "totalRetries" = counter w "totalRetries" + (last - 1)
       end.
Proof.
  destruct (retry_run self operation opts w) as (k & last & r & w' & Hret & Hrun).
  destruct (loop_run_shape self operation _ _ _ _ _ _ _ _ Hrun)
    as (body & _ & _ & _ & _ & Hstore & _).
  pose proof (loop_run_settles self operation _ _ _ _ _ _ _ _ Hrun) as Hr.
  exists k, last, r, w'. split; [exact Hret|].
  assert (Hc : forall key, key <> "totalOperations" ->
                           counter (counted w) key = counter w key)
    by (intros; now apply counted_other).
  destruct k; cbn beta iota in Hr.
  - destruct Hr as (v & es & ->). cbn [outcome_key] in Hstore.
    destruct (terminal_store_counters Succeeded "successfulOperations" last (counted w) w')
      as (H1 & H2 & H3); [discriminate | discriminate | exact Hstore |].
    rewrite H1, H2, !H3, counted_totalOperations, !Hc by discriminate.
    repeat split.
  - destruct Hr as (e & es & ->). cbn [outcome_key] in Hstore.
    destruct (terminal_store_counters Exhausted "failedOperations" last (counted w) w')
      as (H1 & H2 & H3); [discriminate | discriminate | exact Hstore |].
    rewrite H1, H2, !H3, counted_totalOperations, !Hc by discriminate.
    repeat split.
  - destruct Hr as (e & -> & _). cbn [outcome_key] in Hstore.
    destruct (terminal_store_counters NonRetryable "failedOperations" last (counted w) w')
      as (H1 & H2 & H3); [discriminate | discriminate | exact Hstore |].
    rewrite H1, H2, !H3, counted_totalOperations, !Hc by discriminate.
    repeat split.
  - cbn [terminal_store] in Hstore. unfold counter at 1 3 5 7.
    rewrite Hstore. fold (counter (counted w) "totalOperations").
    fold (counter (counted w) "successfulOperations").
    fold (counter (counted w) "failedOperations").
    fold (counter (counted w) "totalRetries").
    rewrite counted_totalOperations, !Hc by discriminate.
    repeat split.
Qed.

(** Calls keep the counters consistent. *)
Lemma retry_keeps_consistent (opts : option RetryConfig) w :
  stats_consistent w -> stats_consistent (snd (retry self operation opts w)).
Proof.
  intros (Hs & Hf & Hsum).
  destruct (retry_counters opts w) as (k & last & r & w' & Hret & Ht & Hk).
  rewrite Hret. cbn [snd]. unfold stats_consistent.
  destruct k; destruct Hk as (H1 & H2 & _); rewrite Ht, H1, H2; lia.
Qed.

End Consistency.

Lemma fresh_world_consistent {St : Type} (s : St) (rnd : nat -> Q) :
  stats_consistent (fresh_world s rnd).
Proof. repeat split; vm_compute; congruence. Qed.

(** While no operation was counted, the success rate is 0. *)
Lemma getStats_successRate_zero {St : Type} (self : RetryProps) (w : @World St) :
  stats_consistent w -> counter w "totalOperations" = 0 ->
  (successRate (fst (getStats self w)) == 0)%Q.
Proof.
  intros (Hs & Hf & Hsum) Ht.
  assert (H0 : counter w "successfulOperations" = 0) by lia.
  rewrite getStats_eq. cbn [fst successRate].
  replace (or_else (store w !! "successfulOperations") 0) with 0.
  - unfold Qdiv. now rewrite Qmult_0_l.
  - revert H0. unfold counter.
    destruct (store w !! "successfulOperations") as [[| |]|]; cbn; congruence.
Qed.

(** ** The scenarios of the repository's test suite *)

Example test_retry_with_backoff :
  let retry_unit := create (mkRetryConfig (Some 3%Q) (Some 10%Q) None None None None) in
  let e := mkError "Temporary failure" None in
  let out := retry retry_unit (fails_then_returns 2 e "success") None
               (fresh_world 0%nat (fun _ => 1 # 2)%Q) in
  fst out = Some (Resolved (mkRetryResult "success" 3 [e; e] true))
  /\ opstate (snd out) = 3%nat
  /\ counter (snd out) "totalRetries" = 2.
Proof. cbv zeta. repeat split; vm_compute; reflexivity. Qed.

Example test_fail_fast :
  let retry_unit := create no_options in
  let out := retry retry_unit
               (always_throws (T := unit)
                  (mkError "Invalid input - not retryable" None))
               None (fresh_world tt (fun _ => 1 # 2)%Q) in
  fst out = Some (Rejected (mkError
              "[retry] Non-retryable error: Invalid input - not retryable" None))
  /\ failedOperations (fst (getStats retry_unit (snd out))) = 1
  /\ totalRetries (fst (getStats retry_unit (snd out))) = 0.
Proof. cbv zeta. repeat split; vm_compute; reflexivity. Qed.

Example test_network_errors :
  let retry_unit := create (mkRetryConfig (Some 2%Q) (Some 10%Q) None None None None) in
  let out := retry retry_unit
               (always_throws (T := unit)
                  (mkError "Connection timeout" (Some "ETIMEDOUT")))
               None (fresh_world tt (fun _ => 1 # 2)%Q) in
  String.prefix "[retry] Operation failed after 2 attempts"
    match fst out with
    | Some (Rejected e) => message e
    | _ => ""
    end = true
  /\ totalRetries (fst (getStats retry_unit (snd out))) = 1.
Proof. cbv zeta. repeat split; vm_compute; reflexivity. Qed.

Example test_statistics :
  let retry_unit := create (mkRetryConfig (Some 2%Q) (Some 10%Q) None None None None) in
  let w1 := snd (retry retry_unit (always_returns "success") None
                   (fresh_world tt (fun _ => 1 # 2)%Q)) in
  let w2 := snd (retry retry_unit
                   (always_throws (T := string) (mkError "timeout" None))
                   None w1) in
  let stats := fst (getStats retry_unit w2) in
  totalOperations stats = 2
  /\ successfulOperations stats = 1
  /\ failedOperations stats = 1
  /\ (successRate stats == 1 # 2)%Q.
Proof. cbv zeta. repeat split; vm_compute; reflexivity. Qed.

(** * Further properties of the code *)

(** ** Runs, one step at a time *)

Section RunSteps.
Context {St T : Type}.
Variables (self : RetryProps) (operation : @Operation St T) (config : MergedConfig).
Implicit Types (w : @World St) (a : Z) (errs : list Error).

(** What the first iteration of a run is, from the loop test, what the
    invocation did, the last-attempt test and the classification. *)
Lemma loop_run_first a errs w k last r w' :
  loop_run self operation config a errs w k last r w' ->
  if Qle_bool (inject_Z a) (m_maxAttempts config) then
    match operation (opstate w) with
    | (inl v, s') =>
        k = Succeeded /\ last = a
        /\ r = Resolved (mkRetryResult v a errs true)
        /\ w' = record_outcome "successfulOperations" a (after_call w s')
    | (inr t, s') =>
        if Qeq_bool (inject_Z a) (m_maxAttempts config) then
          k = Exhausted /\ last = a
          /\ r = Rejected (mkError (exhausted_message self a (to_Error t)
                                      (errs ++ [to_Error t])) None)
          /\ w' = record_outcome "failedOperations" a (after_call w s')
        else if isRetryableError self (to_Error t) then
          loop_run self operation config (a + 1) (errs ++ [to_Error t])
            (after_delay self a config (after_call w s')) k last r w'
        else
          k = NonRetryable /\ last = a
          /\ r = Rejected (mkError (non_retryable_message self (to_Error t)) None)
          /\ w' = record_outcome "failedOperations" a (after_call w s')
    end
  else
    k = FellThrough /\ last = a
    /\ r = Rejected (mkError (unexpected_message self) None) /\ w' = w.
Proof.
  intros Hrun. destruct Hrun as [a errs w Hle | a errs w v s' Hle Hop
                 | a errs w t s' Hle Hop Heq | a errs w t s' Hle Hop Heq Hr
                 | a errs w t s' k last r w' Hle Hop Heq Hr Hrun];
    rewrite Hle; try rewrite Hop; try rewrite Heq; try rewrite Hr;
    try (repeat split; reflexivity).
  exact Hrun.
Qed.

(** A run is determined by where it starts. *)
Lemma loop_run_functional a errs w k1 last1 r1 w1 k2 last2 r2 w2 :
  loop_run self operation config a errs w k1 last1 r1 w1 ->
  loop_run self operation config a errs w k2 last2 r2 w2 ->
  k1 = k2 /\ last1 = last2 /\ r1 = r2 /\ w1 = w2.
Proof.
  intros H1. revert k2 last2 r2 w2.
  induction_on_run H1; intros k2 last2 r2 w2 H2;
    apply loop_run_first in H2; rewrite Hle in H2;
    try rewrite Hop in H2; try rewrite Heq in H2; try rewrite Hr in H2.
  - destruct H2 as (-> & -> & -> & ->). repeat split.
  - destruct H2 as (-> & -> & -> & ->). repeat split.
  - destruct H2 as (-> & -> & -> & ->). repeat split.
  - destruct H2 as (-> & -> & -> & ->). repeat split.
  - now apply IH.
Qed.

Lemma fails_retryably_length (j : nat) : forall s,
  fails_retryably self operation j s -> length (thrown_by operation j s) = j.
Proof.
  induction j as [|j IH]; intros s Hf; [reflexivity|].
  destruct Hf as (t & s' & Hop & _ & Hf).
  cbn [thrown_by]. rewrite Hop. cbn [length]. now rewrite IH.
Qed.

(** Past [j] retryable failures a run continues as the run that starts [j]
    attempts later, with these failures collected, the closure in the state
    they left, and the store as it was. *)
Lemma loop_run_skip (j : nat) : forall a errs w k last r w',
  loop_run self operation config a errs w k last r w' ->
  fails_retryably self operation j (opstate w) ->
  (j = 0%nat \/ (inject_Z (a + Z.of_nat j - 1) < m_maxAttempts config)%Q) ->
  exists wj,
    loop_run self operation config (a + Z.of_nat j)
      (errs ++ thrown_by operation j (opstate w)) wj k last r w'
    /\ opstate wj = state_after operation j (opstate w)
    /\ store wj = store w
    /\ random wj = random w.
Proof.
  induction j as [|j IH]; intros a errs w k last r w' Hrun Hf Hmax.
  - exists w. cbn [thrown_by state_after Z.of_nat].
    rewrite app_nil_r, Z.add_0_r. repeat split. exact Hrun.
  - destruct Hf as (t & s' & Hop & Hr & Hf).
    destruct Hmax as [Hz | Hmax]; [discriminate|].
    assert (Ha : (inject_Z a < m_maxAttempts config)%Q).
    { eapply Qle_lt_trans; [|exact Hmax]. rewrite <- Zle_Qle. lia. }
    apply loop_run_first in Hrun.
    assert (Hle : Qle_bool (inject_Z a) (m_maxAttempts config) = true).
    { apply Qle_bool_iff. now apply Qlt_le_weak. }
    assert (Heq : Qeq_bool (inject_Z a) (m_maxAttempts config) = false).
    { apply not_true_is_false. rewrite Qeq_bool_iff. intros He.
      rewrite He in Ha. now apply Qlt_irrefl in Ha. }
    rewrite Hle, Hop, Heq, Hr in Hrun.
    destruct (IH (a + 1) _ _ _ _ _ _ Hrun) as (wj & Hj & Hs & Hst & Hrn).
    + rewrite after_delay_opstate. exact Hf.
    + destruct j as [|j]; [now left | right].
      replace (a + 1 + Z.of_nat (S j) - 1) with (a + Z.of_nat (S (S j)) - 1)
        by lia.
      exact Hmax.
    + rewrite after_delay_opstate in Hs, Hj. cbn [opstate after_call] in Hs, Hj.
      exists wj. repeat apply conj.
      * cbn [thrown_by]. rewrite Hop.
        replace (a + Z.of_nat (S j)) with (a + 1 + Z.of_nat j) by lia.
        rewrite <- app_assoc in Hj. exact Hj.
      * rewrite Hs. cbn [state_after]. rewrite Hop. reflexivity.
      * rewrite Hst, after_delay_store. reflexivity.
      * rewrite Hrn. destruct (after_delay_spec self a config (after_call w s'))
          as [n ->]. reflexivity.
Qed.

End RunSteps.

(** A call, summed up: how [retry] settles, the run of its loop, the events
    it adds and the store it leaves. *)
Lemma retry_summary {St T : Type} (self : RetryProps)
    (operation : @Operation St T) (opts : option RetryConfig) (w : @World St) :
  exists k last r w' body,
    retry self operation opts w = (Some r, w')
    /\ loop_run self operation (mergeOptions self opts) 1 [] (counted w)
         k last r w'
    /\ trace w'
       = (trace w
          ++ EvSet "totalOperations" (counter w "totalOperations" + 1)
             :: body ++ terminal_events k (outcome_key r) last w)%list
    /\ Forall call_or_sleep body
    /\ calls body = invocations k 1 last
    /\ Z.of_nat (length (sleeps body)) = last - 1
    /\ store w' = terminal_store k (outcome_key r) last (counted w)
    /\ 1 <= last.
Proof.
  destruct (retry_run self operation opts w) as (k & last & r & w' & Hret & Hrun).
  destruct (loop_run_shape self operation _ _ _ _ _ _ _ _ Hrun)
    as (body & Htr & Hbody & Hcalls & Hsleeps & Hstore & Hlast).
  exists k, last, r, w', body. repeat apply conj; try assumption.
  rewrite Htr, counted_trace, <- app_assoc. cbn [app].
  do 2 f_equal. f_equal.
  unfold terminal_events. destruct k; try reflexivity;
    rewrite !counted_other; try reflexivity; try discriminate;
    destruct r; discriminate.
Qed.

(** The counters after a call that recorded its outcome in [key]. *)
Lemma recorded_counters {St : Type} (k : ending) (key : string) (last : Z)
    (w w' : @World St) :
  k <> FellThrough -> key <> "totalRetries" -> key <> "totalOperations" ->
  store w' = terminal_store k key last (counted w) ->
  counter w' key = counter w key + 1
  /\ counter w' "totalRetries" = counter w "totalRetries" + (last - 1)
  /\ counter w' "totalOperations" = counter w "totalOperations" + 1
  /\ forall key', key' <> key -> key' <> "totalRetries" ->
                  key' <> "totalOperations" -> counter w' key' = counter w key'.
Proof.
  intros Hk H1 H2 Hst.
  destruct (terminal_store_counters k key last (counted w) w' Hk H1 Hst)
    as (Hc1 & Hc2 & Hc3).
  repeat apply conj.
  - rewrite Hc1, counted_other by exact H2. reflexivity.
  - rewrite Hc2, counted_other by discriminate. reflexivity.
  - rewrite Hc3 by congruence. apply counted_totalOperations.
  - intros key' Ha Hb Hc. rewrite Hc3, counted_other by assumption. reflexivity.
Qed.

(** ** Calls that succeed after retries, and calls that fail fast *)

(** X1: when the first [j] invocations fail with retryable errors, the next
    one returns [v], and [j + 1] attempts are within [maxAttempts], the call
    resolves with [v], [attempts = j + 1], the [j] errors in the order
    thrown and [success = true]; it invoked the operation [j + 1] times and
    slept [j] times, and it added one to [successfulOperations] and [j] to
    [totalRetries]. *)
Theorem retry_resolves_after_failures {St T : Type} (self : RetryProps)
    (operation : @Operation St T) (opts : option RetryConfig) (w : @World St)
    (j : nat) (v : T) (s' : St) :
  fails_retryably self operation j (opstate w) ->
  operation (state_after operation j (opstate w)) = (inl v, s') ->
  (inject_Z (Z.of_nat j + 1) <= m_maxAttempts (mergeOptions self opts))%Q ->
  exists body w',
    retry self operation opts w
    = (Some (Resolved (mkRetryResult v (Z.of_nat j + 1)
                         (thrown_by operation j (opstate w)) true)), w')
    /\ length (thrown_by operation j (opstate w)) = j
    /\ trace w'
       = (trace w
          ++ EvSet "totalOperations" (counter w "totalOperations" + 1)
             :: body
          ++ [EvSet "successfulOperations"
                    (counter w "successfulOperations" + 1);
              EvSet "totalRetries" (counter w "totalRetries" + Z.of_nat j)])%list
    /\ Forall call_or_sleep body
    /\ calls body = Z.of_nat j + 1
    /\ length (sleeps body) = j
    /\ opstate w' = s'
    /\ counter w' "successfulOperations" = counter w "successfulOperations" + 1
    /\ counter w' "totalRetries" = counter w "totalRetries" + Z.of_nat j
    /\ counter w' "failedOperations" = counter w "failedOperations".
Proof.
  intros Hf Hop Hmax.
  destruct (retry_summary self operation opts w)
    as (k & last & r & w' & body & Hret & Hrun & Htr & Hbody & Hcalls
        & Hsleeps & Hstore & _).
  destruct (loop_run_skip self operation _ j _ _ _ _ _ _ _ Hrun)
    as (wj & Hj & Hs & _).
  { exact Hf. }
  { right. eapply Qlt_le_trans; [|exact Hmax]. rewrite <- Zlt_Qlt.
    cbn [opstate counted]. lia. }
  cbn [opstate counted] in Hs.
  apply loop_run_first in Hj.
  replace (1 + Z.of_nat j) with (Z.of_nat j + 1) in Hj by lia.
  apply Qle_bool_iff in Hmax. rewrite Hmax, Hs, Hop in Hj.
  destruct Hj as (-> & -> & -> & Hw').
  cbn [outcome_key] in Htr, Hstore.
  destruct (recorded_counters Succeeded "successfulOperations"
              (Z.of_nat j + 1) w w')
    as (H1 & H2 & _ & H4);
    [discriminate | discriminate | discriminate | exact Hstore |].
  exists body, w'.
  cbn [terminal_events] in Htr. unfold invocations in Hcalls.
  replace (Z.of_nat j + 1 - 1) with (Z.of_nat j) in * by lia.
  repeat apply conj.
  - exact Hret.
  - now apply (fails_retryably_length self).
  - exact Htr.
  - exact Hbody.
  - rewrite Hcalls. lia.
  - lia.
  - rewrite Hw'. reflexivity.
  - exact H1.
  - exact H2.
  - apply H4; discriminate.
Qed.

Lemma retry_resolves_after_failures_witness :
  let self := create (mkRetryConfig (Some 3%Q) (Some 10%Q) None None None None) in
  let e := mkError "Temporary failure" None in
  exists w',
    retry self (fails_then_returns 2 e "success") None
      (fresh_world 0%nat (fun _ => 1 # 2)%Q)
    = (Some (Resolved (mkRetryResult "success" 3 [e; e] true)), w')
    /\ counter w' "totalRetries" = 2.
Proof.
  intros self e.
  destruct (retry_resolves_after_failures self
              (fails_then_returns 2 e "success") None
              (fresh_world 0%nat (fun _ => 1 # 2)%Q) 2 "success" 3%nat)
    as (body & w' & Hret & _ & _ & _ & _ & _ & _ & _ & Hr & _).
  - cbn. eexists _, _. split; [reflexivity|]. split; [reflexivity|].
    eexists _, _. split; [reflexivity|]. split; [reflexivity | exact I].
  - reflexivity.
  - vm_compute. congruence.
  - exists w'. split; [exact Hret | exact Hr].
Defined.

(** X2: when the first [j] invocations fail with retryable errors, the next
    one throws an error that is not retryable, and that attempt, number
    [j + 1], is not the last one allowed, the call rejects with the
    "Non-retryable error" error for that error, after exactly [j + 1]
    invocations and [j] sleeps: there is no sleep after the failing attempt
    and the remaining attempts are not used.  [failedOperations] goes up by
    one and [totalRetries] by [j]. *)
Theorem retry_stops_at_non_retryable {St T : Type} (self : RetryProps)
    (operation : @Operation St T) (opts : option RetryConfig) (w : @World St)
    (j : nat) (t : Thrown) (s' : St) :
  fails_retryably self operation j (opstate w) ->
  operation (state_after operation j (opstate w)) = (inr t, s') ->
  isRetryableError self (to_Error t) = false ->
  (inject_Z (Z.of_nat j + 1) < m_maxAttempts (mergeOptions self opts))%Q ->
  exists body w',
    retry self operation opts w
    = (Some (Rejected (mkError (non_retryable_message self (to_Error t)) None)),
       w')
    /\ trace w'
       = (trace w
          ++ EvSet "totalOperations" (counter w "totalOperations" + 1)
             :: body
          ++ [EvSet "failedOperations" (counter w "failedOperations" + 1);
              EvSet "totalRetries" (counter w "totalRetries" + Z.of_nat j)])%list
    /\ Forall call_or_sleep body
    /\ calls body = Z.of_nat j + 1
    /\ length (sleeps body) = j
    /\ opstate w' = s'
    /\ counter w' "failedOperations" = counter w "failedOperations" + 1
    /\ counter w' "totalRetries" = counter w "totalRetries" + Z.of_nat j
    /\ counter w' "successfulOperations" = counter w "successfulOperations".
Proof.
  intros Hf Hop Hnr Hmax.
  destruct (retry_summary self operation opts w)
    as (k & last & r & w' & body & Hret & Hrun & Htr & Hbody & Hcalls
        & Hsleeps & Hstore & _).
  destruct (loop_run_skip self operation _ j _ _ _ _ _ _ _ Hrun)
    as (wj & Hj & Hs & _).
  { exact Hf. }
  { right. eapply Qlt_trans; [|exact Hmax]. rewrite <- Zlt_Qlt.
    cbn [opstate counted]. lia. }
  cbn [opstate counted] in Hs.
  apply loop_run_first in Hj.
  replace (1 + Z.of_nat j) with (Z.of_nat j + 1) in Hj by lia.
  assert (Hle : Qle_bool (inject_Z (Z.of_nat j + 1))
                  (m_maxAttempts (mergeOptions self opts)) = true).
  { apply Qle_bool_iff. now apply Qlt_le_weak. }
  assert (Heq : Qeq_bool (inject_Z (Z.of_nat j + 1))
                  (m_maxAttempts (mergeOptions self opts)) = false).
  { apply not_true_is_false. rewrite Qeq_bool_iff. intros He.
    rewrite He in Hmax. now apply Qlt_irrefl in Hmax. }
  rewrite Hle, Hs, Hop, Heq, Hnr in Hj.
  destruct Hj as (-> & -> & -> & Hw').
  cbn [outcome_key] in Htr, Hstore.
  destruct (recorded_counters NonRetryable "failedOperations"
              (Z.of_nat j + 1) w w')
    as (H1 & H2 & _ & H4);
    [discriminate | discriminate | discriminate | exact Hstore |].
  exists body, w'.
  cbn [terminal_events] in Htr. unfold invocations in Hcalls.
  replace (Z.of_nat j + 1 - 1) with (Z.of_nat j) in * by lia.
  repeat apply conj.
  - exact Hret.
  - exact Htr.
  - exact Hbody.
  - rewrite Hcalls. lia.
  - lia.
  - rewrite Hw'. reflexivity.
  - exact H1.
  - exact H2.
  - apply H4; discriminate.
Qed.

Lemma retry_stops_at_non_retryable_witness :
  let self := create no_options in
  let es := [mkError "timeout" None; mkError "Invalid input" None] in
  exists w',
    retry self (throws_in_turn es "ok") None
      (fresh_world 0%nat (fun _ => 1 # 2)%Q)
    = (Some (Rejected (mkError "[retry] Non-retryable error: Invalid input" None)),
       w')
    /\ opstate w' = 2%nat.
Proof.
  intros self es.
  destruct (retry_stops_at_non_retryable self (throws_in_turn es "ok") None
              (fresh_world 0%nat (fun _ => 1 # 2)%Q) 1
              (ThrownError (mkError "Invalid input" None)) 2%nat)
    as (body & w' & Hret & _ & _ & _ & _ & Hop & _).
  - cbn. eexists _, _. split; [reflexivity|]. split; [reflexivity | exact I].
  - reflexivity.
  - reflexivity.
  - vm_compute. reflexivity.
  - exists w'. split; [exact Hret | exact Hop].
Defined.

(** ** The history of a run *)

Section History.
Context {St T : Type}.
Variables (self : RetryProps) (operation : @Operation St T) (config : MergedConfig).
Implicit Types (w : @World St) (a : Z) (errs : list Error).

(** What a run says about the operation: the invocations before the last
    attempt all failed with retryable errors, and the ending tells what the
    last one did. *)
Lemma loop_run_history a errs w k last r w' :
  loop_run self operation config a errs w k last r w' ->
  let j := Z.to_nat (last - a) in
  let sj := state_after operation j (opstate w) in
  let es := (errs ++ thrown_by operation j (opstate w))%list in
  a <= last
  /\ fails_retryably self operation j (opstate w)
  /\ match k with
     | FellThrough =>
         r = Rejected (mkError (unexpected_message self) None)
         /\ opstate w' = sj
         /\ Qle_bool (inject_Z last) (m_maxAttempts config) = false
     | Succeeded =>
         exists v s', operation sj = (inl v, s')
           /\ r = Resolved (mkRetryResult v last es true)
           /\ opstate w' = s'
           /\ Qle_bool (inject_Z last) (m_maxAttempts config) = true
     | Exhausted =>
         exists t s', operation sj = (inr t, s')
           /\ r = Rejected (mkError (exhausted_message self last (to_Error t)
                                       (es ++ [to_Error t])) None)
           /\ opstate w' = s'
           /\ Qeq_bool (inject_Z last) (m_maxAttempts config) = true
     | NonRetryable =>
         exists t s', operation sj = (inr t, s')
           /\ isRetryableError self (to_Error t) = false
           /\ r = Rejected (mkError (non_retryable_message self (to_Error t)) None)
           /\ opstate w' = s'
           /\ Qle_bool (inject_Z last) (m_maxAttempts config) = true
           /\ Qeq_bool (inject_Z last) (m_maxAttempts config) = false
     end.
Proof.
  intros Hrun0. induction_on_run Hrun0; cbv zeta.
  - rewrite Z.sub_diag. cbn. repeat split; [lia | exact Hle].
  - rewrite Z.sub_diag. cbn. split; [lia|]. split; [exact I|].
    exists v, s'. rewrite app_nil_r. repeat split; assumption.
  - rewrite Z.sub_diag. cbn. split; [lia|]. split; [exact I|].
    exists t, s'. rewrite app_nil_r. repeat split; assumption.
  - rewrite Z.sub_diag. cbn. split; [lia|]. split; [exact I|].
    exists t, s'. repeat split; assumption.
  - cbv zeta in IH. destruct IH as (Hlast & Hf & Hk).
    rewrite after_delay_opstate in Hf, Hk. cbn [opstate after_call] in Hf, Hk.
    replace (Z.to_nat (last - a)) with (S (Z.to_nat (last - (a + 1)))) by lia.
    cbn [thrown_by state_after fails_retryably]. rewrite Hop. cbn [snd].
    split; [lia|]. split; [exists t, s'; repeat split; assumption|].
    rewrite <- app_assoc in Hk. exact Hk.
Qed.

End History.

Lemma new_events_app {St : Type} (w w' : @World St) (evs : list event) :
  trace w' = (trace w ++ evs)%list -> new_events w w' = evs.
Proof.
  intros H. unfold new_events. rewrite H.
  rewrite List.skipn_app, List.skipn_all, Nat.sub_diag. reflexivity.
Qed.

Lemma calls_terminal_events {St : Type} k key last (w : @World St) :
  calls (terminal_events k key last w) = 0.
Proof. destruct k; reflexivity. Qed.

Lemma sleeps_terminal_events {St : Type} k key last (w : @World St) :
  sleeps (terminal_events k key last w) = [].
Proof. destruct k; reflexivity. Qed.

(** The invocations and sleeps among the events a call added. *)
Lemma retry_new_events {St T : Type} (self : RetryProps)
    (operation : @Operation St T) (opts : option RetryConfig) (w : @World St) :
  exists k last r w',
    retry self operation opts w = (Some r, w')
    /\ loop_run self operation (mergeOptions self opts) 1 [] (counted w)
         k last r w'
    /\ calls (new_events w w') = invocations k 1 last
    /\ Z.of_nat (length (sleeps (new_events w w'))) = last - 1
    /\ store w' = terminal_store k (outcome_key r) last (counted w).
Proof.
  destruct (retry_summary self operation opts w)
    as (k & last & r & w' & body & Hret & Hrun & Htr & Hbody & Hcalls
        & Hsleeps & Hstore & _).
  exists k, last, r, w'. rewrite (new_events_app _ _ _ Htr).
  repeat apply conj; try assumption.
  - change (calls (?e :: ?l)) with (calls l).
    rewrite calls_app, calls_terminal_events, Hcalls. lia.
  - change (sleeps (?e :: ?l)) with (sleeps l).
    rewrite sleeps_app, sleeps_terminal_events, app_nil_r. exact Hsleeps.
Qed.

(** ** What a resolved call tells *)

(** X3: whenever [retry] resolves, the result has [success = true]; its
    [attempts] is the number of invocations made, at least 1 and at most
    [maxAttempts]; its [errors] are the errors thrown by the invocations
    before the last, in order, one per earlier attempt, each of them
    retryable; [result] is what the last invocation returned; the call
    slept once per error; and [successfulOperations] went up by one,
    [totalRetries] by [attempts - 1], [failedOperations] not at all. *)
Theorem retry_resolved_result {St T : Type} (self : RetryProps)
    (operation : @Operation St T) (opts : option RetryConfig) (w w' : @World St)
    (res : @RetryResult T) :
  retry self operation opts w = (Some (Resolved res), w') ->
  let j := Z.to_nat (attempts res - 1) in
  success res = true
  /\ 1 <= attempts res
  /\ (inject_Z (attempts res) <= m_maxAttempts (mergeOptions self opts))%Q
  /\ calls (new_events w w') = attempts res
  /\ Z.of_nat (length (sleeps (new_events w w'))) = attempts res - 1
  /\ errors res = thrown_by operation j (opstate w)
  /\ Z.of_nat (length (errors res)) = attempts res - 1
  /\ fails_retryably self operation j (opstate w)
  /\ operation (state_after operation j (opstate w)) = (inl (result res), opstate w')
  /\ counter w' "successfulOperations" = counter w "successfulOperations" + 1
  /\ counter w' "totalRetries" = counter w "totalRetries" + (attempts res - 1)
  /\ counter w' "failedOperations" = counter w "failedOperations".
Proof.
  intros Hres.
  destruct (retry_new_events self operation opts w)
    as (k & last & r & w1 & Hret & Hrun & Hcalls & Hsleeps & Hstore).
  rewrite Hres in Hret. injection Hret as <- <-.
  pose proof (loop_run_history self operation _ _ _ _ _ _ _ _ Hrun) as Hh.
  cbv zeta in Hh. destruct Hh as (Hlast & Hf & Hk).
  cbn [opstate counted] in Hf, Hk.
  destruct k;
    [| destruct Hk as (? & ? & _ & Hk & _); discriminate
     | destruct Hk as (? & ? & _ & _ & Hk & _); discriminate
     | destruct Hk as (Hk & _); discriminate].
  destruct Hk as (v & s' & Hop & Hr & Hs & Hle).
  injection Hr as ->. cbn [attempts errors success result].
  cbn [outcome_key] in Hstore.
  destruct (recorded_counters Succeeded "successfulOperations" last w w')
    as (H1 & H2 & _ & H4);
    [discriminate | discriminate | discriminate | exact Hstore |].
  unfold invocations in Hcalls.
  repeat apply conj.
  - reflexivity.
  - exact Hlast.
  - now apply Qle_bool_iff.
  - rewrite Hcalls. lia.
  - exact Hsleeps.
  - reflexivity.
  - rewrite (fails_retryably_length self operation _ _ Hf). lia.
  - exact Hf.
  - rewrite Hop, Hs. reflexivity.
  - exact H1.
  - exact H2.
  - apply H4; discriminate.
Qed.

Lemma retry_resolved_result_witness :
  let self := create (mkRetryConfig (Some 3%Q) (Some 10%Q) None None None None) in
  let e := mkError "Temporary failure" None in
  let out := retry self (fails_then_returns 2 e "success") None
               (fresh_world 0%nat (fun _ => 1 # 2)%Q) in
  calls (new_events (fresh_world 0%nat (fun _ => 1 # 2)%Q) (snd out)) = 3.
Proof.
  intros self e out.
  refine (proj1 (proj2 (proj2 (proj2
    (retry_resolved_result self (fails_then_returns 2 e "success") None
       (fresh_world 0%nat (fun _ => 1 # 2)%Q) (snd out)
       (mkRetryResult "success" 3 [e; e] true) _))))).
  vm_compute. reflexivity.
Defined.

(** ** The attempt budget *)

Section Budget.
Context {St T : Type}.
Variables (self : RetryProps) (operation : @Operation St T) (config : MergedConfig).
Implicit Types (w : @World St) (a : Z) (errs : list Error).

(** Every attempt made passed the loop test. *)
Lemma loop_run_budget a errs w k last r w' :
  loop_run self operation config a errs w k last r w' ->
  match k with
  | FellThrough => last = a \/ last - 1 <= Qfloor (m_maxAttempts config)
  | _ => last <= Qfloor (m_maxAttempts config)
  end.
Proof.
  intros Hrun0. induction_on_run Hrun0;
    try (now apply Qle_bool_floor); [now left|].
  apply Qle_bool_floor in Hle. destruct k; try exact IH.
  right. destruct IH as [-> | IH]; lia.
Qed.

Lemma state_after_snoc (j : nat) : forall s,
  state_after operation (S j) s = snd (operation (state_after operation j s)).
Proof.
  induction j as [|j IH]; intros s; [reflexivity|].
  change (state_after operation (S (S j)) s)
    with (state_after operation (S j) (snd (operation s))).
  rewrite IH. reflexivity.
Qed.

(** The closure of the operation is left as the invocations of the run
    leave it. *)
Lemma loop_run_opstate a errs w k last r w' :
  loop_run self operation config a errs w k last r w' ->
  opstate w' = state_after operation (Z.to_nat (invocations k a last)) (opstate w).
Proof.
  intros Hrun.
  pose proof (loop_run_history self operation _ _ _ _ _ _ _ _ Hrun) as Hh.
  cbv zeta in Hh. destruct Hh as (Hlast & _ & Hk). unfold invocations.
  destruct k.
  - destruct Hk as (v & s' & Hop & _ & -> & _).
    replace (Z.to_nat (last - a + 1)) with (S (Z.to_nat (last - a))) by lia.
    rewrite state_after_snoc, Hop. reflexivity.
  - destruct Hk as (t & s' & Hop & _ & -> & _).
    replace (Z.to_nat (last - a + 1)) with (S (Z.to_nat (last - a))) by lia.
    rewrite state_after_snoc, Hop. reflexivity.
  - destruct Hk as (t & s' & Hop & _ & _ & -> & _).
    replace (Z.to_nat (last - a + 1)) with (S (Z.to_nat (last - a))) by lia.
    rewrite state_after_snoc, Hop. reflexivity.
  - now destruct Hk as (_ & -> & _).
Qed.

End Budget.

(** X4: whatever the operation does and whatever the policy is, a call
    invokes the operation at most [floor(maxAttempts)] times, and not at all
    when that is below 1; it never sleeps more often than it invokes; the
    closure of the operation is left as exactly these invocations leave it;
    and [totalRetries] never goes down, and grows by less than the number of
    invocations. *)
Theorem retry_attempts_bounded {St T : Type} (self : RetryProps)
    (operation : @Operation St T) (opts : option RetryConfig) (w : @World St) :
  let w' := snd (retry self operation opts w) in
  let evs := new_events w w' in
  let budget := Z.max 0 (Qfloor (m_maxAttempts (mergeOptions self opts))) in
  0 <= calls evs
  /\ calls evs <= budget
  /\ Z.of_nat (length (sleeps evs)) <= calls evs
  /\ opstate w' = state_after operation (Z.to_nat (calls evs)) (opstate w)
  /\ counter w "totalRetries" <= counter w' "totalRetries"
  /\ counter w' "totalRetries" <= counter w "totalRetries" + Z.max 0 (calls evs - 1).
Proof.
  cbv zeta.
  destruct (retry_new_events self operation opts w)
    as (k & last & r & w' & Hret & Hrun & Hcalls & Hsleeps & Hstore).
  rewrite Hret. cbn [snd].
  pose proof (loop_run_budget self operation _ _ _ _ _ _ _ _ Hrun) as Hb.
  pose proof (loop_run_opstate self operation _ _ _ _ _ _ _ _ Hrun) as Ho.
  pose proof (loop_run_history self operation _ _ _ _ _ _ _ _ Hrun) as Hh.
  cbv zeta in Hh. destruct Hh as (Hlast & _ & _).
  cbn [opstate counted] in Ho. rewrite Hcalls.
  assert (Hr : counter w' "totalRetries"
               = counter w "totalRetries"
                 + match k with FellThrough => 0 | _ => last - 1 end).
  { destruct k as [| | |] eqn:Ek;
      [ destruct (recorded_counters Succeeded (outcome_key r) last w w')
          as (_ & H & _);
        [discriminate | destruct r; discriminate | destruct r; discriminate
        | exact Hstore | exact H]
      | destruct (recorded_counters Exhausted (outcome_key r) last w w')
          as (_ & H & _);
        [discriminate | destruct r; discriminate | destruct r; discriminate
        | exact Hstore | exact H]
      | destruct (recorded_counters NonRetryable (outcome_key r) last w w')
          as (_ & H & _);
        [discriminate | destruct r; discriminate | destruct r; discriminate
        | exact Hstore | exact H]
      | ].
    cbn [terminal_store] in Hstore. unfold counter at 1. rewrite Hstore.
    fold (counter (counted w) "totalRetries").
    rewrite counted_other by discriminate. lia. }
  rewrite Hr. unfold invocations in *.
  destruct k; cbn beta iota in Hb; repeat apply conj; try exact Ho; lia.
Qed.

Lemma always_fails_retryably {St T : Type} (self : RetryProps)
    (operation : @Operation St T) :
  always_fails_retryable self operation ->
  forall j s, fails_retryably self operation j s.
Proof.
  intros Hall. induction j as [|j IH]; intros s; [exact I|].
  destruct (Hall s) as (t & Ht & Hr).
  destruct (operation s) as [x s'] eqn:Hop. cbn [fst] in Ht. subst x.
  exists t, s'. split; [exact Hop|]. split; [exact Hr | apply IH].
Qed.

(** X5: a [maxAttempts] that is at least 1 and not an integer ends a call
    of an always-failing operation outside both terminal outcomes.  The
    operation is invoked [floor(maxAttempts)] times and the call sleeps
    after every one of them, the last included; then the loop test fails
    and the promise is rejected with "Unexpected retry loop completion".
    The call is counted in [totalOperations], and neither
    [failedOperations] nor [totalRetries] moves. *)
Theorem retry_fractional_maxAttempts {St T : Type} (self : RetryProps)
    (operation : @Operation St T) (opts : option RetryConfig) (w : @World St) :
  let max := m_maxAttempts (mergeOptions self opts) in
  (1 <= max)%Q -> (inject_Z (Qfloor max) < max)%Q ->
  always_fails_retryable self operation ->
  exists w',
    retry self operation opts w
    = (Some (Rejected (mkError (unexpected_message self) None)), w')
    /\ calls (new_events w w') = Qfloor max
    /\ Z.of_nat (length (sleeps (new_events w w'))) = Qfloor max
    /\ counter w' "totalOperations" = counter w "totalOperations" + 1
    /\ counter w' "failedOperations" = counter w "failedOperations"
    /\ counter w' "successfulOperations" = counter w "successfulOperations"
    /\ counter w' "totalRetries" = counter w "totalRetries".
Proof.
  intros max Hone Hfrac Hall.
  destruct (retry_new_events self operation opts w)
    as (k & last & r & w' & Hret & Hrun & Hcalls & Hsleeps & Hstore).
  assert (Hfl : 1 <= Qfloor max).
  { change 1 with (Qfloor 1). now apply Qfloor_resp_le. }
  destruct (loop_run_skip self operation _ (Z.to_nat (Qfloor max))
              _ _ _ _ _ _ _ Hrun) as (wj & Hj & _).
  { now apply always_fails_retryably. }
  { right. replace (1 + Z.of_nat (Z.to_nat (Qfloor max)) - 1) with (Qfloor max)
      by lia. exact Hfrac. }
  apply loop_run_first in Hj.
  replace (1 + Z.of_nat (Z.to_nat (Qfloor max))) with (Qfloor max + 1) in Hj
    by lia.
  assert (Hle : Qle_bool (inject_Z (Qfloor max + 1)) max = false).
  { apply not_true_is_false. rewrite Qle_bool_iff. apply Qlt_not_le.
    apply Qlt_floor. }
  fold max in Hj. rewrite Hle in Hj. destruct Hj as (-> & -> & -> & _).
  exists w'. cbn [terminal_store] in Hstore. unfold invocations in Hcalls.
  assert (Hc : forall key, counter w' key = counter (counted w) key).
  { intros key. unfold counter. now rewrite Hstore. }
  rewrite !Hc, counted_totalOperations, !counted_other by discriminate.
  repeat apply conj; try reflexivity; try assumption; lia.
Qed.

Lemma retry_fractional_maxAttempts_witness :
  let self := create (mkRetryConfig (Some (5 # 2)) None None (Some false) None None) in
  exists w',
    retry self (always_throws (T := unit) (mkError "timeout" None)) None
      (fresh_world tt (fun _ => 0%Q))
    = (Some (Rejected (mkError "[retry] Unexpected retry loop completion" None)),
       w')
    /\ calls (new_events (fresh_world tt (fun _ => 0%Q)) w') = 2
    /\ counter w' "failedOperations" = 0.
Proof.
  intros self.
  destruct (retry_fractional_maxAttempts self
              (always_throws (T := unit) (mkError "timeout" None)) None
              (fresh_world tt (fun _ => 0%Q)))
    as (w' & Hret & Hc & _ & _ & Hf & _).
  - vm_compute. congruence.
  - vm_compute. reflexivity.
  - intros s. eexists. split; reflexivity.
  - exists w'. repeat apply conj; [exact Hret | exact Hc | exact Hf].
Defined.

(** With only retryable failures and an integer budget, a call resolves at
    some attempt within the budget or uses the budget up. *)
Lemma retry_resolves_or_exhausts {St T : Type} (self : RetryProps)
    (operation : @Operation St T) (opts : option RetryConfig) (w : @World St)
    (n : Z) :
  1 <= n ->
  (m_maxAttempts (mergeOptions self opts) == inject_Z n)%Q ->
  throws_only_retryable self operation ->
  exists w',
    (exists v (j : nat) s',
        retry self operation opts w
        = (Some (Resolved (mkRetryResult v (Z.of_nat j + 1)
                             (thrown_by operation j (opstate w)) true)), w')
        /\ operation (state_after operation j (opstate w)) = (inl v, s')
        /\ Z.of_nat j + 1 <= n
        /\ length (thrown_by operation j (opstate w)) = j)
    \/ (exists e es,
          retry self operation opts w
          = (Some (Rejected (mkError (exhausted_message self n e es) None)), w')
          /\ Z.of_nat (length es) = n
          /\ calls (new_events w w') = n
          /\ opstate w' = state_after operation (Z.to_nat n) (opstate w)).
Proof.
  intros Hn Hmax Honly.
  destruct (retry_new_events self operation opts w)
    as (k & last & r & w' & Hret & Hrun & Hcalls & _ & _).
  destruct (loop_run_within_budget self operation _ n Hmax _ _ _ _ _ _ _ Hrun Hn)
    as [Hk Hbudget].
  pose proof (loop_run_opstate self operation _ _ _ _ _ _ _ _ Hrun) as Hop'.
  pose proof (loop_run_history self operation _ _ _ _ _ _ _ _ Hrun) as Hh.
  cbv zeta in Hh. destruct Hh as (Hlast & Hf & Hh).
  cbn [opstate counted] in Hf, Hh, Hop'.
  exists w'. destruct k; [| | |congruence].
  - left. destruct Hh as (v & s' & Hop & -> & _).
    exists v, (Z.to_nat (last - 1)), s'.
    replace (Z.of_nat (Z.to_nat (last - 1)) + 1) with last by lia.
    repeat apply conj; [exact Hret | exact Hop | exact Hbudget |].
    now apply (fails_retryably_length self).
  - right. destruct Hh as (t & s' & _ & -> & _ & Heq).
    rewrite (Qeq_bool_inject last n) in Heq by exact Hmax.
    apply Z.eqb_eq in Heq. subst last. unfold invocations in *.
    eexists _, _. split; [exact Hret|]. repeat apply conj.
    + rewrite !length_app, (fails_retryably_length self operation _ _ Hf).
      cbn [length]. lia.
    + rewrite Hcalls. lia.
    + rewrite Hop'. f_equal. lia.
  - destruct Hh as (t & s' & Hop & Hnr & _).
    rewrite (Honly _ _ _ Hop) in Hnr. discriminate.
Qed.

(** X6: when everything the operation can throw is retryable and
    [maxAttempts] is an integer [n >= 1], a call never ends with the
    "Non-retryable error" error nor with the fallback one: either it
    resolves, or it rejects with the "Operation failed after n attempts"
    error after exactly [n] invocations, listing [n] errors. *)
Theorem retry_of_retryable_failures {St T : Type} (self : RetryProps)
    (operation : @Operation St T) (opts : option RetryConfig) (w : @World St)
    (n : Z) :
  1 <= n ->
  (m_maxAttempts (mergeOptions self opts) == inject_Z n)%Q ->
  throws_only_retryable self operation ->
  exists w',
    (exists res, retry self operation opts w = (Some (Resolved res), w'))
    \/ (exists e es,
          retry self operation opts w
          = (Some (Rejected (mkError (exhausted_message self n e es) None)), w')
          /\ Z.of_nat (length es) = n
          /\ calls (new_events w w') = n).
Proof.
  intros Hn Hmax Honly.
  destruct (retry_resolves_or_exhausts self operation opts w n Hn Hmax Honly)
    as (w' & [(v & j & s' & Hret & _) | (e & es & Hret & Hlen & Hcalls & _)]).
  - exists w'. left. eauto.
  - exists w'. right. eauto.
Qed.

Lemma retry_of_retryable_failures_witness :
  let self := create no_options in
  let op := fails_then_returns 1 (mkError "timeout" None) "ok" in
  exists w',
    (exists res, retry self op None (fresh_world 0%nat (fun _ => 1 # 2)%Q)
                 = (Some (Resolved res), w'))
    \/ (exists e es,
          retry self op None (fresh_world 0%nat (fun _ => 1 # 2)%Q)
          = (Some (Rejected (mkError (exhausted_message self 3 e es) None)), w')
          /\ Z.of_nat (length es) = 3
          /\ calls (new_events (fresh_world 0%nat (fun _ => 1 # 2)%Q) w') = 3).
Proof.
  intros self op.
  apply (retry_of_retryable_failures self op None
           (fresh_world 0%nat (fun _ => 1 # 2)%Q) 3).
  - lia.
  - reflexivity.
  - intros s t s' H. unfold op, fails_then_returns in H.
    destruct (s <? 1)%nat; [|discriminate].
    injection H as <- _. reflexivity.
Defined.

(** ** The delays of a call *)

Section Delays.
Context {St T : Type}.
Variables (self : RetryProps) (operation : @Operation St T) (config : MergedConfig).
Implicit Types (w : @World St) (a : Z) (errs : list Error).

Lemma sleep_times_app (tr1 tr2 : list event) :
  sleep_times (tr1 ++ tr2) = (sleep_times tr1 ++ sleep_times tr2)%list.
Proof.
  induction tr1 as [|[k v| |ms] tr1 IH]; cbn; [reflexivity | exact IH..|].
  now rewrite IH.
Qed.

Lemma sleep_times_length (tr : list event) :
  length (sleep_times tr) = length (sleeps tr).
Proof.
  induction tr as [|[k v| |ms] tr IH]; cbn; [reflexivity | exact IH..|].
  now rewrite IH.
Qed.

(** A world after a delay, with and without jitter. *)
Lemma after_delay_eq a w :
  after_delay self a config w
  = mkWorld (store w) (opstate w) (random w) (power w)
            (if jitter self then S (draws w) else draws w)
            (trace w ++ [EvSleep (fst (calculateDelay self a config w))]).
Proof.
  unfold after_delay, calculateDelay, exponentiate, bind, ret, Math_random, sleep.
  destruct (jitter self); reflexivity.
Qed.

(** The sleeps of a run are the delays computed after its failed attempts,
    and it draws one random number for each when jitter is on, and none
    when it is off. *)
Lemma loop_run_delays a errs w k last r w' :
  loop_run self operation config a errs w k last r w' ->
  exists ds,
    sleep_times (trace w') = (sleep_times (trace w) ++ ds)%list
    /\ length ds = Z.to_nat (last - a)
    /\ random w' = random w
    /\ power w' = power w
    /\ draws w' = (draws w + if jitter self then length ds else 0)%nat
    /\ (jitter self = false ->
        ds = schedule (engine_power (power w)) self a (length ds))
    /\ forall i d, nth_error ds i = Some d ->
         exists wd : @World St, random wd = random w
                    /\ power wd = power w
                    /\ draws wd = (draws w + if jitter self then i else 0)%nat
                    /\ d = fst (calculateDelay self (a + Z.of_nat i) config wd).
Proof.
  intros Hrun0. induction_on_run Hrun0.
  - exists []. rewrite app_nil_r, Z.sub_diag. repeat apply conj; try reflexivity.
    + destruct (jitter self); cbn; lia.
    + intros [|i] d H; discriminate.
  - exists []. rewrite record_outcome_trace, after_call_trace.
    rewrite <- app_assoc, sleep_times_app, Z.sub_diag.
    repeat apply conj; try reflexivity.
    + cbn [draws record_outcome after_call]. destruct (jitter self); cbn; lia.
    + intros [|i] d H; discriminate.
  - exists []. rewrite record_outcome_trace, after_call_trace.
    rewrite <- app_assoc, sleep_times_app, Z.sub_diag.
    repeat apply conj; try reflexivity.
    + cbn [draws record_outcome after_call]. destruct (jitter self); cbn; lia.
    + intros [|i] d H; discriminate.
  - exists []. rewrite record_outcome_trace, after_call_trace.
    rewrite <- app_assoc, sleep_times_app, Z.sub_diag.
    repeat apply conj; try reflexivity.
    + cbn [draws record_outcome after_call]. destruct (jitter self); cbn; lia.
    + intros [|i] d H; discriminate.
  - destruct IH as (ds & Htr & Hlen & Hrnd & Hpow & Hdraws & Hplain & Hnth).
    pose proof (loop_run_history self operation _ _ _ _ _ _ _ _ Hrun)
      as (Hlast & _).
    rewrite after_delay_eq in Htr, Hrnd, Hpow, Hdraws, Hplain, Hnth.
    cbn [trace random power draws after_call] in Htr, Hrnd, Hpow, Hdraws, Hplain, Hnth.
    set (d0 := fst (calculateDelay self a config (after_call w s'))) in *.
    exists (d0 :: ds). repeat apply conj.
    + rewrite Htr, !sleep_times_app, <- !app_assoc. reflexivity.
    + cbn [length]. lia.
    + exact Hrnd.
    + exact Hpow.
    + rewrite Hdraws. cbn [length]. destruct (jitter self); lia.
    + intros Hj. cbn [length schedule]. f_equal.
      * subst d0. now rewrite calculateDelay_plain.
      * now apply Hplain.
    + intros [|i] d Hd.
      * injection Hd as <-. exists (after_call w s').
        repeat apply conj; [reflexivity | reflexivity | |].
        -- cbn [draws after_call]. destruct (jitter self); lia.
        -- rewrite Z.add_0_r. reflexivity.
      * destruct (Hnth i d Hd) as (wd & H1 & H1' & H2 & H3).
        exists wd. repeat apply conj; [exact H1 | exact H1' | |].
        -- rewrite H2. destruct (jitter self); lia.
        -- rewrite H3. f_equal. f_equal. lia.
Qed.

End Delays.

Lemma schedule_nth (engine : Q -> Z -> number) (self : RetryProps) (n : nat) :
  forall a i d,
  nth_error (schedule engine self a n) i = Some d ->
  d = floor_at_zero (unjittered engine self (a + Z.of_nat i)).
Proof.
  induction n as [|n IH]; intros a [|i] d H; try discriminate.
  - injection H as <-. now rewrite Z.add_0_r.
  - cbn [schedule nth_error] in H. rewrite (IH _ _ _ H). f_equal. f_equal. lia.
Qed.

(** The sleeps among the events a call added are the delays of its run. *)
Lemma retry_delays {St T : Type} (self : RetryProps)
    (operation : @Operation St T) (opts : option RetryConfig) (w : @World St) :
  let w' := snd (retry self operation opts w) in
  let ds := sleep_times (new_events w w') in
  length ds = length (sleeps (new_events w w'))
  /\ draws w' = (draws w + if jitter self then length ds else 0)%nat
  /\ (jitter self = false ->
      ds = schedule (engine_power (power w)) self 1 (length ds))
  /\ forall i d, nth_error ds i = Some d ->
       exists wd : @World St,
         random wd = random w
         /\ power wd = power w
         /\ draws wd = (draws w + if jitter self then i else 0)%nat
         /\ d = fst (calculateDelay self (1 + Z.of_nat i)
                       (mergeOptions self opts) wd).
Proof.
  cbv zeta.
  destruct (retry_summary self operation opts w)
    as (k & last & r & w' & body & Hret & Hrun & Htr & _).
  rewrite Hret. cbn [snd].
  destruct (loop_run_delays self operation _ _ _ _ _ _ _ _ Hrun)
    as (ds & Hds & _ & _ & _ & Hdraws & Hplain & Hnth).
  assert (Heq : sleep_times (new_events w w') = ds).
  { rewrite (new_events_app _ _ _ Htr).
    rewrite Htr, counted_trace, !sleep_times_app in Hds.
    cbn [sleep_times] in Hds. rewrite app_nil_r in Hds.
    apply app_inv_head in Hds.
    change (sleep_times (?e :: ?l)) with (sleep_times l) in Hds. exact Hds. }
  rewrite Heq. repeat apply conj.
  - rewrite <- Heq. apply sleep_times_length.
  - exact Hdraws.
  - exact Hplain.
  - exact Hnth.
Qed.

(** X7: on an instance without jitter the sleeps of a call follow the
    backoff schedule, whatever the operation does and whatever overrides
    the call was given: the sleep after attempt [i + 1] lasts
    [Math.max(0, Math.floor(Math.min(baseDelay * backoffMultiplier ** i, maxDelay)))]
    milliseconds, computed in doubles on the instance's values; and no
    random number is drawn. *)
Theorem retry_backoff_schedule {St T : Type} (self : RetryProps)
    (operation : @Operation St T) (opts : option RetryConfig) (w : @World St) :
  jitter self = false ->
  let w' := snd (retry self operation opts w) in
  draws w' = draws w
  /\ forall i d, nth_error (sleep_times (new_events w w')) i = Some d ->
       d = Math_max (Finite 0)
             (Math_floor
                (Math_min
                   (Number_multiply (Number (baseDelay self))
                      (Number_exponentiate (engine_power (power w))
                         (Number (backoffMultiplier self)) (Z.of_nat i)))
                   (Number (maxDelay self)))).
Proof.
  intros Hj. cbv zeta.
  destruct (retry_delays self operation opts w) as (_ & Hdraws & Hplain & _).
  rewrite Hj in Hdraws. split; [lia|].
  intros i d Hd. rewrite (Hplain Hj) in Hd.
  apply schedule_nth in Hd. rewrite Hd. unfold floor_at_zero, unjittered.
  replace (1 + Z.of_nat i - 1) with (Z.of_nat i) by lia. reflexivity.
Qed.

Lemma retry_backoff_schedule_witness :
  let self := create (mkRetryConfig (Some 4%Q) None None (Some false) None None) in
  draws (snd (retry self (always_throws (T := unit) (mkError "timeout" None))
                None (fresh_world tt (fun _ => 0%Q)))) = 0%nat.
Proof.
  intros self.
  refine (proj1 (retry_backoff_schedule self
                   (always_throws (T := unit) (mkError "timeout" None)) None
                   (fresh_world tt (fun _ => 0%Q)) _)).
  reflexivity.
Defined.

(** Without jitter the delay is at most the floor of [maxDelay]. *)
Lemma plain_delay_capped (x : number) (M : Q) :
  let d := floor_at_zero (Math_min x (Finite M)) in
  d = NaN
  \/ exists z, d = Finite (inject_Z z) /\ 0 <= z <= Z.max 0 (Qfloor M).
Proof.
  cbv zeta. destruct x as [|[|]|q]; cbn [Math_min].
  - left; reflexivity.
  - right. exists 0. split; [reflexivity | lia].
  - right. rewrite floor_at_zero_Finite. eexists; split; [reflexivity | lia].
  - right. destruct (Qle_bool q M) eqn:H; rewrite floor_at_zero_Finite;
      eexists; (split; [reflexivity|]).
    + apply Qle_bool_iff in H. apply Qfloor_resp_le in H. lia.
    + lia.
Qed.

(** X8: no sleep of a call is negative: each lasts a non-negative integer
    of milliseconds, unless it is NaN or Infinity.  With jitter the call
    draws exactly one random number per sleep, and without jitter none.
    Without jitter no sleep is longer than the floor of the instance's
    [maxDelay] (as a double), or 0 if that is negative. *)
Theorem retry_sleeps_capped {St T : Type} (self : RetryProps)
    (operation : @Operation St T) (opts : option RetryConfig) (w : @World St) :
  let w' := snd (retry self operation opts w) in
  let ds := sleep_times (new_events w w') in
  Forall never_negative ds
  /\ draws w'
     = (draws w + if jitter self then length (sleeps (new_events w w')) else 0)%nat
  /\ (jitter self = false ->
      forall M : Q, Number (maxDelay self) = Finite M ->
      Forall (fun d => d = NaN
                       \/ exists z, d = Finite (inject_Z z)
                                    /\ 0 <= z <= Z.max 0 (Qfloor M)) ds).
Proof.
  cbv zeta.
  destruct (retry_delays self operation opts w) as (Hlen & Hdraws & _ & Hnth).
  repeat apply conj.
  - apply List.Forall_forall. intros d Hd.
    apply List.In_nth_error in Hd as [i Hi].
    destruct (Hnth i d Hi) as (wd & _ & _ & _ & ->).
    apply calculateDelay_never_negative.
  - rewrite Hdraws, Hlen. reflexivity.
  - intros Hj M HM. apply List.Forall_forall. intros d Hd.
    apply List.In_nth_error in Hd as [i Hi].
    destruct (Hnth i d Hi) as (wd & _ & _ & _ & ->).
    rewrite calculateDelay_plain by exact Hj. cbn [fst].
    unfold unjittered. rewrite HM. apply plain_delay_capped.
Qed.

Lemma retry_sleeps_capped_witness :
  let self := create (mkRetryConfig None (Some 4000%Q) None (Some false) None None) in
  let w := fresh_world tt (fun _ => 9 # 10)%Q in
  Forall (fun d => d = NaN
                   \/ exists z, d = Finite (inject_Z z) /\ 0 <= z <= 5000)
    (sleep_times (new_events w
       (snd (retry self (always_throws (T := unit) (mkError "timeout" None))
               None w)))).
Proof.
  intros self w.
  refine (proj2 (proj2 (retry_sleeps_capped self
                   (always_throws (T := unit) (mkError "timeout" None)) None
                   w)) _ 5000%Q _).
  - reflexivity.
  - vm_compute. reflexivity.
Defined.

(** ** More on the classifier *)

Lemma toLowerCase_app (a b : string) :
  toLowerCase (a ++ b) = toLowerCase a ++ toLowerCase b.
Proof.
  induction a as [|c a IH]; [reflexivity|].
  rewrite append_String. cbn [toLowerCase]. rewrite IH, append_String.
  reflexivity.
Qed.

Lemma append_assoc (a b c : string) : (a ++ b) ++ c = a ++ b ++ c.
Proof.
  induction a as [|x a IH]; [reflexivity|].
  rewrite !append_String, IH. reflexivity.
Qed.

Lemma contains_app (s p a b : string) :
  contains s p -> contains (a ++ s ++ b) p.
Proof.
  intros (x & y & ->). exists (a ++ x), (y ++ b).
  rewrite !append_assoc. reflexivity.
Qed.

Lemma contains_refl (p : string) : contains p p.
Proof.
  exists "", "". rewrite append_empty.
  induction p as [|c p IH]; [reflexivity|].
  rewrite append_String. congruence.
Qed.

Lemma contains_app_l (s p a : string) : contains s p -> contains (a ++ s) p.
Proof.
  intros (x & y & ->). exists (a ++ x), y. now rewrite append_assoc.
Qed.

Lemma contains_app_r (s p b : string) : contains s p -> contains (s ++ b) p.
Proof.
  intros (x & y & ->). exists x, (y ++ b). now rewrite !append_assoc.
Qed.

(** The classification of an error without a usable code is the keyword
    test on its message. *)
Lemma isRetryableError_by_message (self : RetryProps) (m : string) :
  isRetryableError self (mkError m None)
  = existsb (fun pattern => includes (toLowerCase m) pattern) retryablePatterns.
Proof. reflexivity. Qed.

Lemma isRetryableError_false_message (self : RetryProps) (e : Error) :
  isRetryableError self e = false ->
  existsb (fun pattern => includes (toLowerCase (message e)) pattern)
          retryablePatterns = false.
Proof.
  unfold isRetryableError.
  destruct (match code e with
            | Some c => truthy_string c && has (retryableErrors self) c
            | None => false
            end); [discriminate | exact (fun H => H)].
Qed.

Lemma message_matches_retryable (self : RetryProps) (e : Error) :
  message_matches e -> isRetryableError self e = true.
Proof.
  intros Hm. apply patterns_spec in Hm. unfold isRetryableError.
  destruct (match code e with
            | Some c => truthy_string c && has (retryableErrors self) c
            | None => false
            end); [reflexivity | exact Hm].
Qed.

(** X10: a keyword makes an error retryable wherever it stands in the
    message and in whatever letter case it is written, for every instance
    and whatever the code of the error: if [kw] lowercases to one of the
    sixteen keywords, every message of the form [a ++ kw ++ b] is
    retryable.  So is, in particular, every message with the digit 5 in
    it. *)
Theorem keyword_anywhere_is_retryable (self : RetryProps) (a kw b : string)
    (c : option string) (p : string) :
  In p retryablePatterns -> toLowerCase kw = p ->
  isRetryableError self (mkError (a ++ kw ++ b) c) = true.
Proof.
  intros Hp Hkw. apply message_matches_retryable.
  exists p. split; [exact Hp|]. cbn [message].
  rewrite !toLowerCase_app, Hkw. apply contains_app, contains_refl.
Qed.

Lemma keyword_anywhere_is_retryable_witness :
  isRetryableError (create no_options)
    (mkError ("HTTP " ++ "TimeOut" ++ " at gateway") None) = true
  /\ isRetryableError (create no_options)
       (mkError ("field" ++ "5" ++ " missing") None) = true.
Proof.
  split.
  - apply (keyword_anywhere_is_retryable _ _ _ _ _ "timeout");
      [vm_compute; tauto | reflexivity].
  - apply (keyword_anywhere_is_retryable _ _ _ _ _ "5");
      [vm_compute; tauto | reflexivity].
Defined.

(** ** The codes of an instance *)

Lemma Set_of_In (l : list string) (x : string) : In x (Set_of l) <-> In x l.
Proof.
  induction l as [|y l IH]; [reflexivity|].
  cbn [Set_of In]. rewrite List.filter_In, IH, negb_true_iff, String.eqb_neq.
  destruct (String.eqb_spec y x) as [->|Hne]; [tauto|]. tauto.
Qed.

Lemma Set_of_NoDup (l : list string) : List.NoDup (Set_of l).
Proof.
  induction l as [|y l IH]; [constructor|].
  cbn [Set_of]. constructor.
  - rewrite List.filter_In, negb_true_iff, String.eqb_neq. tauto.
  - now apply List.NoDup_filter.
Qed.

(** X11: the retryable codes of an instance made by [create] are the codes
    of the configuration, or the four defaults when it gives none, each
    kept once.  An error whose code is one of them and is not empty is
    retryable whatever its message; an error whose code is none of them is
    classified as if it had no code. *)
Theorem create_retryable_codes (cfg : RetryConfig) :
  let codes := cfg_retryableErrors cfg
               ?? ["ECONNRESET"; "ETIMEDOUT"; "ENOTFOUND"; "EHOSTUNREACH"] in
  let self := create cfg in
  List.NoDup (retryableErrors self)
  /\ (forall c, In c (retryableErrors self) <-> In c codes)
  /\ (forall c m, In c codes -> c <> "" ->
                  isRetryableError self (mkError m (Some c)) = true)
  /\ (forall c m, ~ In c codes ->
                  isRetryableError self (mkError m (Some c))
                  = isRetryableError self (mkError m None)).
Proof.
  cbv zeta. repeat apply conj.
  - apply Set_of_NoDup.
  - intros c. apply Set_of_In.
  - intros c m Hin Hne. unfold isRetryableError. cbn [code].
    apply truthy_string_spec in Hne. rewrite Hne.
    replace (has (retryableErrors (create cfg)) c) with true; [reflexivity|].
    symmetry. apply has_spec, Set_of_In. exact Hin.
  - intros c m Hnot. unfold isRetryableError. cbn [code message].
    replace (has (retryableErrors (create cfg)) c) with false.
    + now rewrite andb_false_r.
    + symmetry. apply not_true_is_false. rewrite has_spec.
      intros H. apply Hnot. now apply Set_of_In.
Qed.

(** ** Errors of [retry], classified *)

Lemma prefix_app_rest (s : string) : forall p m,
  String.prefix p (s ++ m)
  = String.prefix p s
    || match rest_after p s with
       | Some q => String.prefix q m
       | None => false
       end.
Proof.
  induction s as [|b s IH]; intros p m.
  - rewrite append_empty. cbn [rest_after].
    destruct p as [|a p]; [destruct m; reflexivity | reflexivity].
  - rewrite append_String. destruct p as [|a p]; [reflexivity|].
    cbn [String.prefix rest_after].
    destruct (ascii_dec a b) as [->|Hab].
    + rewrite Ascii.eqb_refl. apply IH.
    + apply Ascii.eqb_neq in Hab. rewrite Hab. reflexivity.
Qed.

(** A text that is [clean] for [p] adds no occurrence of [p] to what
    follows it. *)
Lemma clean_includes (s p m : string) :
  clean s p = true -> includes (s ++ m) p = includes m p.
Proof.
  induction s as [|c s IH]; intros Hc; [now rewrite append_empty|].
  cbn [clean] in Hc. apply andb_true_iff in Hc as [Hc Hs].
  apply andb_true_iff in Hc as [Hp Hr]. apply negb_true_iff in Hp.
  pose proof (prefix_app_rest (String c s) p m) as Hpre.
  rewrite Hp in Hpre. destruct (rest_after p (String c s)); [discriminate|].
  rewrite append_String in *. cbn [includes]. rewrite Hpre, (IH Hs).
  reflexivity.
Qed.

Lemma existsb_ext_in {A : Type} (f g : A -> bool) (l : list A) :
  (forall x, In x l -> f x = g x) -> existsb f l = existsb g l.
Proof.
  induction l as [|x l IH]; intros H; [reflexivity|].
  cbn [existsb]. rewrite (H x) by now left.
  rewrite IH; [reflexivity|]. intros y Hy. apply H. now right.
Qed.

(** X12: the error with which an instance made by [create] rejects a
    non-retryable failure is itself non-retryable, for every instance: the
    text "[retry] Non-retryable error: " put before the message brings in
    no keyword, and the error carries no code.  So a call of [retry] around
    a call of [retry] does not retry what the inner call gave up on. *)
Theorem non_retryable_stays_non_retryable (cfg : RetryConfig)
    (outer : RetryProps) (e : Error) :
  isRetryableError (create cfg) e = false ->
  isRetryableError outer
    (mkError (non_retryable_message (create cfg) e) None) = false.
Proof.
  intros Hnr. apply isRetryableError_false_message in Hnr.
  rewrite isRetryableError_by_message.
  change (non_retryable_message (create cfg) e)
    with ("[retry] Non-retryable error: " ++ message e).
  rewrite toLowerCase_app.
  change (toLowerCase "[retry] Non-retryable error: ")
    with "[retry] non-retryable error: ".
  rewrite (existsb_ext_in _
             (fun pattern => includes (toLowerCase (message e)) pattern));
    [exact Hnr|].
  intros p Hp. apply clean_includes.
  assert (Hall : forallb (clean "[retry] non-retryable error: ")
                         retryablePatterns = true) by (vm_compute; reflexivity).
  rewrite forallb_forall in Hall. now apply Hall.
Qed.

Lemma non_retryable_stays_non_retryable_witness :
  isRetryableError (create no_options)
    (mkError "[retry] Non-retryable error: Invalid input" None) = false.
Proof.
  apply (non_retryable_stays_non_retryable no_options (create no_options)
           (mkError "Invalid input" None)).
  reflexivity.
Defined.

(** X13: the error with which [retry] rejects after its last attempt
    quotes the message of the last error, so it is retryable, for every
    instance, whenever that message contains a keyword.  A call of [retry]
    around a call of [retry] therefore retries the inner call as a whole
    when the inner call ran out of attempts on such an error. *)
Theorem exhausted_error_is_retryable (self outer : RetryProps) (n : Z)
    (e : Error) (errs : list Error) :
  message_matches e ->
  isRetryableError outer (mkError (exhausted_message self n e errs) None) = true.
Proof.
  intros (p & Hp & Hc). apply message_matches_retryable.
  exists p. split; [exact Hp|]. cbn [message]. unfold exhausted_message.
  rewrite !toLowerCase_app.
  do 5 apply contains_app_l. apply contains_app_r. exact Hc.
Qed.

Lemma exhausted_error_is_retryable_witness :
  isRetryableError (create no_options)
    (mkError (exhausted_message (create no_options) 3
                (mkError "Connection timeout" None)
                [mkError "Connection timeout" None]) None) = true.
Proof.
  apply exhausted_error_is_retryable.
  exists "timeout". split; [vm_compute; tauto|].
  exists "connection ", "". reflexivity.
Defined.

(** ** Statistics over the life of an instance *)

(** What one call does to the counters. *)
Lemma retry_step_counters {St T : Type} (self : RetryProps)
    (operation : @Operation St T) (opts : option RetryConfig) (w : @World St) :
  let w' := snd (retry self operation opts w) in
  exists ds df dr,
    0 <= ds /\ 0 <= df /\ ds + df <= 1 /\ 0 <= dr
    /\ counter w' "totalOperations" = counter w "totalOperations" + 1
    /\ counter w' "successfulOperations" = counter w "successfulOperations" + ds
    /\ counter w' "failedOperations" = counter w "failedOperations" + df
    /\ counter w' "totalRetries" = counter w "totalRetries" + dr
    /\ counter w' "averageAttempts" = counter w "averageAttempts".
Proof.
  cbv zeta.
  destruct (retry_summary self operation opts w)
    as (k & last & r & w' & body & Hret & Hrun & _ & _ & _ & _ & Hstore & Hlast).
  rewrite Hret. cbn [snd].
  pose proof (loop_run_settles self operation _ _ _ _ _ _ _ _ Hrun) as Hr.
  destruct k; cbn beta iota in Hr.
  - destruct Hr as (v & es & ->). cbn [outcome_key] in Hstore.
    destruct (recorded_counters Succeeded "successfulOperations" last w w')
      as (H1 & H2 & H3 & H4);
      [discriminate | discriminate | discriminate | exact Hstore |].
    exists 1, 0, (last - 1).
    rewrite H1, H2, H3, !H4 by discriminate. repeat apply conj; lia.
  - destruct Hr as (e & es & ->). cbn [outcome_key] in Hstore.
    destruct (recorded_counters Exhausted "failedOperations" last w w')
      as (H1 & H2 & H3 & H4);
      [discriminate | discriminate | discriminate | exact Hstore |].
    exists 0, 1, (last - 1).
    rewrite H1, H2, H3, !H4 by discriminate. repeat apply conj; lia.
  - destruct Hr as (e & -> & _). cbn [outcome_key] in Hstore.
    destruct (recorded_counters NonRetryable "failedOperations" last w w')
      as (H1 & H2 & H3 & H4);
      [discriminate | discriminate | discriminate | exact Hstore |].
    exists 0, 1, (last - 1).
    rewrite H1, H2, H3, !H4 by discriminate. repeat apply conj; lia.
  - cbn [terminal_store] in Hstore.
    assert (Hc : forall key, counter w' key = counter (counted w) key).
    { intros key. unfold counter. now rewrite Hstore. }
    exists 0, 0, 0.
    rewrite !Hc, counted_totalOperations, !counted_other by discriminate.
    repeat apply conj; lia.
Qed.

Lemma after_calls_counters {St : Type} (w0 w : @World St) (n : nat) :
  after_calls w0 n w ->
  counter w "totalOperations" = counter w0 "totalOperations" + Z.of_nat n
  /\ counter w0 "successfulOperations" <= counter w "successfulOperations"
  /\ counter w0 "failedOperations" <= counter w "failedOperations"
  /\ counter w "successfulOperations" + counter w "failedOperations"
     <= counter w0 "successfulOperations" + counter w0 "failedOperations"
        + Z.of_nat n
  /\ counter w0 "totalRetries" <= counter w "totalRetries"
  /\ counter w "averageAttempts" = counter w0 "averageAttempts".
Proof.
  induction 1 as [|n w T self operation opts Hn IH].
  - repeat apply conj; lia.
  - destruct (retry_step_counters self operation opts w)
      as (ds & df & dr & ? & ? & ? & ? & Ht & Hs & Hf & Hr & Ha).
    rewrite Ht, Hs, Hf, Hr, Ha. repeat apply conj; lia.
Qed.

Lemma successRate_bounds {St : Type} (self : RetryProps) (w : @World St) :
  stats_consistent w ->
  (0 <= successRate (fst (getStats self w)))%Q
  /\ (successRate (fst (getStats self w)) <= 1)%Q.
Proof.
  intros (Hs & Hf & Hsum). rewrite getStats_eq. cbn [fst successRate].
  set (s := counter w "successfulOperations") in *.
  set (t := counter w "totalOperations") in *.
  assert (Hs' : or_else (store w !! "successfulOperations") 0 = s).
  { subst s. unfold counter.
    destruct (store w !! "successfulOperations") as [[| |]|]; reflexivity. }
  assert (Ht' : or_else (store w !! "totalOperations") 1
                = if (t =? 0)%Z then 1 else t).
  { subst t. unfold counter.
    destruct (store w !! "totalOperations") as [[| |]|]; reflexivity. }
  rewrite Hs', Ht'.
  destruct (Z.eqb_spec t 0) as [Ht0 | Ht0].
  - assert (s = 0) by lia. subst s. rewrite H. split; vm_compute; congruence.
  - assert (Hpos : (0 < inject_Z t)%Q).
    { change 0%Q with (inject_Z 0). rewrite <- Zlt_Qlt. lia. }
    split.
    + apply Qle_shift_div_l; [exact Hpos|]. rewrite Qmult_0_l.
      change 0%Q with (inject_Z 0). rewrite <- Zle_Qle. lia.
    + apply Qle_shift_div_r; [exact Hpos|]. rewrite Qmult_1_l.
      rewrite <- Zle_Qle. lia.
Qed.

(** X14: after any [n] calls of [retry] on a new instance, whatever the
    operations did and however the calls ended, [getStats] reports
    [totalOperations = n]; [successfulOperations] and [failedOperations]
    are not negative and together at most [n]; [totalRetries] is not
    negative; [successRate] lies between 0 and 1; and [averageAttempts] is
    0, since no call writes it. *)
Theorem stats_after_calls {St : Type} (s : St) (rnd : nat -> Q)
    (w : @World St) (n : nat) (self : RetryProps) :
  after_calls (fresh_world s rnd) n w ->
  let stats := fst (getStats self w) in
  totalOperations stats = Z.of_nat n
  /\ 0 <= successfulOperations stats
  /\ 0 <= failedOperations stats
  /\ successfulOperations stats + failedOperations stats <= Z.of_nat n
  /\ 0 <= totalRetries stats
  /\ (0 <= successRate stats)%Q /\ (successRate stats <= 1)%Q
  /\ averageAttempts stats = 0%Q.
Proof.
  intros Hcalls. cbv zeta.
  destruct (after_calls_counters _ _ _ Hcalls) as (Ht & Hs & Hf & Hsum & Hr & Ha).
  change (counter (fresh_world s rnd) "totalOperations") with 0 in *.
  change (counter (fresh_world s rnd) "successfulOperations") with 0 in *.
  change (counter (fresh_world s rnd) "failedOperations") with 0 in *.
  change (counter (fresh_world s rnd) "totalRetries") with 0 in *.
  change (counter (fresh_world s rnd) "averageAttempts") with 0 in *.
  assert (Hcons : stats_consistent w) by (repeat split; lia).
  destruct (successRate_bounds self w Hcons) as [Hlo Hhi].
  rewrite getStats_eq in *. cbn [fst] in *.
  cbn [totalOperations successfulOperations failedOperations totalRetries
       averageAttempts].
  rewrite Ha. repeat apply conj; try assumption; try lia. reflexivity.
Qed.

Lemma stats_after_calls_witness :
  let self := create no_options in
  let w0 := fresh_world tt (fun _ => 1 # 2)%Q in
  let w1 := snd (retry self (always_returns "ok") None w0) in
  let w2 := snd (retry self
                   (always_throws (T := unit) (mkError "Invalid input" None))
                   None w1) in
  totalOperations (fst (getStats self w2)) = 2.
Proof.
  intros self w0 w1 w2.
  refine (proj1 (stats_after_calls tt (fun _ => 1 # 2)%Q w2 2 self _)).
  apply one_more_call, one_more_call, no_call.
Defined.

(** X15: a call whose effective [maxAttempts] is an integer [n >= 1] keeps
    the books balanced: if [totalOperations] was the sum of
    [successfulOperations] and [failedOperations] before the call, it is so
    after it, whatever the operation did. *)
Theorem retry_keeps_balance {St T : Type} (self : RetryProps)
    (operation : @Operation St T) (opts : option RetryConfig) (w : @World St)
    (n : Z) :
  1 <= n ->
  (m_maxAttempts (mergeOptions self opts) == inject_Z n)%Q ->
  counter w "totalOperations"
  = counter w "successfulOperations" + counter w "failedOperations" ->
  let w' := snd (retry self operation opts w) in
  counter w' "totalOperations"
  = counter w' "successfulOperations" + counter w' "failedOperations".
Proof.
  intros Hn Hmax Hbal. cbv zeta.
  destruct (retry_summary self operation opts w)
    as (k & last & r & w' & body & Hret & Hrun & _ & _ & _ & _ & Hstore & _).
  rewrite Hret. cbn [snd].
  destruct (loop_run_within_budget self operation _ n Hmax _ _ _ _ _ _ _ Hrun Hn)
    as [Hk _].
  destruct r as [res | e]; cbn [outcome_key] in Hstore.
  - destruct (recorded_counters k "successfulOperations" last w w')
      as (H1 & _ & H3 & H4);
      [exact Hk | discriminate | discriminate | exact Hstore |].
    rewrite H1, H3, (H4 "failedOperations") by discriminate. lia.
  - destruct (recorded_counters k "failedOperations" last w w')
      as (H1 & _ & H3 & H4);
      [exact Hk | discriminate | discriminate | exact Hstore |].
    rewrite H1, H3, (H4 "successfulOperations") by discriminate. lia.
Qed.

Lemma retry_keeps_balance_witness :
  let self := create no_options in
  let w' := snd (retry self (always_throws (T := unit) (mkError "timeout" None))
                   None (fresh_world tt (fun _ => 1 # 2)%Q)) in
  counter w' "totalOperations"
  = counter w' "successfulOperations" + counter w' "failedOperations".
Proof.
  intros self.
  apply (retry_keeps_balance self _ None (fresh_world tt (fun _ => 1 # 2)%Q) 3).
  - lia.
  - reflexivity.
  - reflexivity.
Defined.



(** ** The flaky API of the demonstration under [retry] *)

Lemma errorType_index (r : Q) :
  (0 <= r)%Q -> (r < 1)%Q ->
  0 <= Qfloor (r * inject_Z (Z.of_nat (length errorTypes))) <= 4.
Proof.
  intros H0 H1. change (inject_Z (Z.of_nat (length errorTypes))) with 5%Q.
  split.
  - change 0 with (Qfloor 0). apply Qfloor_resp_le. lra.
  - pose proof (Qfloor_le (r * 5)) as Hle.
    assert (Hlt : (inject_Z (Qfloor (r * 5)) < inject_Z 5)%Q).
    { change (inject_Z 5) with 5%Q. lra. }
    rewrite <- Zlt_Qlt in Hlt. lia.
Qed.

Lemma service_error_retryable (self : RetryProps) (name kw msg : string)
    (c : option string) :
  In kw retryablePatterns -> includes (toLowerCase msg) kw = true ->
  isRetryableError self (mkError (name ++ ": " ++ msg) c) = true.
Proof.
  intros Hkw Hinc. apply message_matches_retryable.
  exists kw. split; [exact Hkw|]. cbn [message].
  rewrite !toLowerCase_app. do 2 apply contains_app_l.
  now apply includes_spec.
Qed.

Lemma fetchData_throws_retryable (rnd : nat -> Q) (self : RetryProps) :
  (forall i, (0 <= rnd i)%Q /\ (rnd i < 1)%Q) ->
  throws_only_retryable self (fetchData rnd).
Proof.
  intros Hrnd [this k] t s' H. unfold fetchData in H.
  cbn [failureRate serviceName callCount] in H.
  destruct (negb (Qle_bool (failureRate this) (rnd (k + 1)%nat)));
    [|discriminate].
  destruct (Hrnd (k + 2)%nat) as [H0 H1].
  pose proof (errorType_index _ H0 H1) as Hidx.
  set (i := Qfloor (rnd (k + 2)%nat
                    * inject_Z (Z.of_nat (length errorTypes)))) in *.
  assert (Hi : i = 0 \/ i = 1 \/ i = 2 \/ i = 3 \/ i = 4) by lia.
  destruct Hi as [-> | [-> | [-> | [-> | ->]]]];
    cbn in H; injection H as <- _; cbn [to_Error].
  - apply (service_error_retryable _ _ "timeout"); [vm_compute; tauto | reflexivity].
  - apply (service_error_retryable _ _ "network"); [vm_compute; tauto | reflexivity].
  - apply (service_error_retryable _ _ "connection"); [vm_compute; tauto | reflexivity].
  - apply (service_error_retryable _ _ "rate limit"); [vm_compute; tauto | reflexivity].
  - apply (service_error_retryable _ _ "service"); [vm_compute; tauto | reflexivity].
Qed.

(** Each invocation adds one to [callCount], whatever it ends in, and
    leaves the name and the failure rate as they are. *)
Lemma fetchData_state_after (rnd : nat -> Q) (j : nat) :
  forall this k,
    callCount (fst (state_after (fetchData rnd) j (this, k)))
    = callCount this + Z.of_nat j
    /\ serviceName (fst (state_after (fetchData rnd) j (this, k)))
       = serviceName this.
Proof.
  induction j as [|j IH]; intros this k.
  - cbn [state_after fst]. split; [lia | reflexivity].
  - cbn [state_after].
    assert (Hs : exists k',
               snd (fetchData rnd (this, k))
               = (mkMockFlakeyAPI (callCount this + 1) (failureRate this)
                                  (serviceName this), k')).
    { unfold fetchData. cbn [failureRate serviceName callCount].
      destruct (negb (Qle_bool (failureRate this) (rnd (k + 1)%nat)));
        [destruct (errorType_at _) as [[msg c]|] |]; eexists; reflexivity. }
    destruct Hs as [k' ->].
    destruct (IH (mkMockFlakeyAPI (callCount this + 1) (failureRate this)
                                  (serviceName this)) k') as [H1 H2].
    rewrite H1, H2. cbn [callCount serviceName]. split; [lia | reflexivity].
Qed.

(** X18: every failure of the flaky API of the demonstration is retryable,
    for every instance, when the random numbers are in [0, 1): the five
    messages each contain a keyword, also "Rate limit exceeded", whose code
    is in no list of retryable codes, and the one that has no code.  So a
    call with an integer [maxAttempts = n >= 1] around [fetchData] never
    fails fast: it resolves, with the response of the service, whose
    [attempt] is the [callCount] before the call plus [attempts], or it
    rejects with the "Operation failed after n attempts" error after
    exactly [n] invocations. *)
Theorem retry_of_fetchData (rnd : nat -> Q) (self : RetryProps)
    (opts : option RetryConfig)
    (w : @World (MockFlakeyAPI * nat)) (n : Z) :
  (forall i, (0 <= rnd i)%Q /\ (rnd i < 1)%Q) ->
  1 <= n ->
  (m_maxAttempts (mergeOptions self opts) == inject_Z n)%Q ->
  throws_only_retryable self (fetchData rnd)
  /\ exists w',
       (exists res,
           retry self (fetchData rnd) opts w = (Some (Resolved res), w')
           /\ data (result res)
              = "Success from " ++ serviceName (fst (opstate w))
           /\ response_attempt (result res)
              = callCount (fst (opstate w)) + attempts res
           /\ 1 <= attempts res <= n)
       \/ (exists e es,
             retry self (fetchData rnd) opts w
             = (Some (Rejected (mkError (exhausted_message self n e es) None)),
                w')
             /\ Z.of_nat (length es) = n
             /\ calls (new_events w w') = n
             /\ callCount (fst (opstate w'))
                = callCount (fst (opstate w)) + n).
Proof.
  intros Hrnd Hn Hmax.
  pose proof (fetchData_throws_retryable rnd self Hrnd) as Honly.
  split; [exact Honly|].
  destruct (retry_resolves_or_exhausts self (fetchData rnd) opts w n
              Hn Hmax Honly)
    as (w' & [(v & j & s' & Hret & Hop & Hj & _)
             | (e & es & Hret & Hlen & Hcalls & Hst)]).
  - exists w'. left. eexists. split; [exact Hret|].
    cbn [result attempts].
    destruct (opstate w) as [this k] eqn:Hw.
    destruct (fetchData_state_after rnd j this k) as [Hc Hname].
    destruct (state_after (fetchData rnd) j (this, k)) as [thisj kj].
    cbn [fst] in *. unfold fetchData in Hop.
    cbn [failureRate serviceName callCount] in Hop.
    destruct (negb (Qle_bool (failureRate thisj) (rnd (kj + 1)%nat))).
    + destruct (errorType_at _) as [[msg c]|]; discriminate.
    + injection Hop as <- _. cbn [data response_attempt serviceName callCount].
      rewrite Hc, Hname. repeat apply conj; [reflexivity | lia | lia | lia].
  - exists w'. right. exists e, es.
    repeat apply conj; [exact Hret | exact Hlen | exact Hcalls |].
    rewrite Hst. destruct (opstate w) as [this k].
    destruct (fetchData_state_after rnd (Z.to_nat n) this k) as [Hc _].
    rewrite Hc. cbn [fst]. lia.
Qed.

Lemma retry_of_fetchData_witness :
  let self := create (mkRetryConfig (Some 4%Q) (Some 100%Q) None (Some true)
                                    None None) in
  throws_only_retryable self (fetchData (fun _ => 1 # 2)%Q).
Proof.
  intros self.
  refine (proj1 (retry_of_fetchData (fun _ => 1 # 2)%Q self None
                   (fresh_world (new_MockFlakeyAPI "UserService" (Some (6 # 10)),
                                 0%nat) (fun _ => 1 # 2)%Q) 4 _ _ _)).
  - intros i. split; vm_compute; congruence.
  - lia.
  - reflexivity.
Defined.

(** ** Failure at the last attempt, and the order of events *)

(** X19: a failure at the last attempt allowed ends the call with the
    "Operation failed after n attempts" error whether or not the error is
    retryable.  When the first [j] invocations fail with retryable errors,
    the next one throws anything, and [maxAttempts] is [j + 1], the error
    names [j + 1] attempts, the error just thrown as the last one, and all
    [j + 1] errors in order; the call made [j + 1] invocations and [j]
    sleeps, and added one to [failedOperations] and [j] to [totalRetries]. *)
Theorem retry_last_attempt_exhausts {St T : Type} (self : RetryProps)
    (operation : @Operation St T) (opts : option RetryConfig) (w : @World St)
    (j : nat) (t : Thrown) (s' : St) :
  fails_retryably self operation j (opstate w) ->
  operation (state_after operation j (opstate w)) = (inr t, s') ->
  (m_maxAttempts (mergeOptions self opts) == inject_Z (Z.of_nat j + 1))%Q ->
  exists w',
    retry self operation opts w
    = (Some (Rejected (mkError
         (exhausted_message self (Z.of_nat j + 1) (to_Error t)
            (thrown_by operation j (opstate w) ++ [to_Error t])) None)), w')
    /\ calls (new_events w w') = Z.of_nat j + 1
    /\ length (sleeps (new_events w w')) = j
    /\ opstate w' = s'
    /\ counter w' "failedOperations" = counter w "failedOperations" + 1
    /\ counter w' "totalRetries" = counter w "totalRetries" + Z.of_nat j
    /\ counter w' "successfulOperations" = counter w "successfulOperations".
Proof.
  intros Hf Hop Hmax.
  destruct (retry_new_events self operation opts w)
    as (k & last & r & w' & Hret & Hrun & Hcalls & Hsleeps & Hstore).
  destruct (loop_run_skip self operation _ j _ _ _ _ _ _ _ Hrun)
    as (wj & Hj & Hs & _).
  { exact Hf. }
  { right. rewrite Hmax, <- Zlt_Qlt. lia. }
  cbn [opstate counted] in Hs.
  apply loop_run_first in Hj.
  replace (1 + Z.of_nat j) with (Z.of_nat j + 1) in Hj by lia.
  rewrite (Qle_bool_inject _ _ _ Hmax), (Qeq_bool_inject _ _ _ Hmax) in Hj.
  rewrite Z.leb_refl, Z.eqb_refl, Hs, Hop in Hj.
  destruct Hj as (-> & -> & -> & Hw').
  cbn [outcome_key] in Hstore.
  destruct (recorded_counters Exhausted "failedOperations"
              (Z.of_nat j + 1) w w')
    as (H1 & H2 & _ & H4);
    [discriminate | discriminate | discriminate | exact Hstore |].
  unfold invocations in Hcalls.
  exists w'. repeat apply conj.
  - exact Hret.
  - rewrite Hcalls. lia.
  - lia.
  - rewrite Hw'. reflexivity.
  - exact H1.
  - rewrite H2. lia.
  - apply H4; discriminate.
Qed.

Lemma retry_last_attempt_exhausts_witness :
  let self := create (mkRetryConfig (Some 2%Q) None None None None None) in
  let es := [mkError "timeout" None; mkError "Invalid input" None] in
  exists w',
    retry self (throws_in_turn es "ok") None
      (fresh_world 0%nat (fun _ => 1 # 2)%Q)
    = (Some (Rejected (mkError
         "[retry] Operation failed after 2 attempts. Last error: Invalid input. All errors: timeout, Invalid input"
         None)), w')
    /\ counter w' "totalRetries" = 1.
Proof.
  intros self es.
  destruct (retry_last_attempt_exhausts self (throws_in_turn es "ok") None
              (fresh_world 0%nat (fun _ => 1 # 2)%Q) 1
              (ThrownError (mkError "Invalid input" None)) 2%nat)
    as (w' & Hret & _ & _ & _ & _ & Hr & _).
  - cbn. eexists _, _. split; [reflexivity|]. split; [reflexivity | exact I].
  - reflexivity.
  - reflexivity.
  - exists w'. split; [exact Hret | exact Hr].
Defined.

Section EventOrder.
Context {St T : Type}.
Variables (self : RetryProps) (operation : @Operation St T) (config : MergedConfig).
Implicit Types (w : @World St) (a : Z) (errs : list Error).

Lemma loop_run_events a errs w k last r w' :
  loop_run self operation config a errs w k last r w' ->
  exists ds,
    trace w'
    = (trace w ++ attempt_events ds
       ++ match k with FellThrough => [] | _ => [EvCall] end
       ++ terminal_events k (outcome_key r) last w)%list.
Proof.
  intros Hrun0. induction_on_run Hrun0;
    try (exists []; rewrite record_outcome_trace, after_call_trace,
                    <- app_assoc; reflexivity).
  - exists []. cbn. now rewrite app_nil_r.
  - destruct IH as (ds & Htr).
    rewrite after_delay_eq in Htr. cbn [trace after_call] in Htr.
    exists (fst (calculateDelay self a config (after_call w s')) :: ds).
    rewrite Htr, <- !app_assoc. reflexivity.
Qed.

End EventOrder.

(** X20: the events of a call come in a fixed order.  First the update of
    [totalOperations]; then, for each failed attempt that is retried, an
    invocation followed at once by a sleep; then either nothing more, in
    which case the promise is rejected with "Unexpected retry loop
    completion", or one last invocation followed at once by the update of
    the outcome counter and the update of [totalRetries].  A call never
    sleeps before its first invocation, never invokes twice without a sleep
    between, and never touches a counter between two attempts. *)
Theorem retry_event_order {St T : Type} (self : RetryProps)
    (operation : @Operation St T) (opts : option RetryConfig) (w : @World St) :
  exists r w' ds,
    retry self operation opts w = (Some r, w')
    /\ ds = sleep_times (new_events w w')
    /\ (new_events w w'
        = (EvSet "totalOperations" (counter w "totalOperations" + 1)
           :: attempt_events ds)%list
        /\ r = Rejected (mkError (unexpected_message self) None)
        \/ new_events w w'
           = (EvSet "totalOperations" (counter w "totalOperations" + 1)
              :: attempt_events ds
              ++ [EvCall;
                  EvSet (outcome_key r) (counter w (outcome_key r) + 1);
                  EvSet "totalRetries"
                        (counter w "totalRetries" + Z.of_nat (length ds))])%list).
Proof.
  destruct (retry_run self operation opts w) as (k & last & r & w' & Hret & Hrun).
  destruct (loop_run_events self operation _ _ _ _ _ _ _ _ Hrun) as (ds & Htr).
  pose proof (loop_run_delays self operation _ _ _ _ _ _ _ _ Hrun)
    as (ds' & Hds & Hlen & _).
  pose proof (loop_run_settles self operation _ _ _ _ _ _ _ _ Hrun) as Hr.
  pose proof (loop_run_history self operation _ _ _ _ _ _ _ _ Hrun)
    as (Hlast & _).
  rewrite counted_trace, <- app_assoc in Htr.
  assert (Hst : sleep_times (attempt_events ds) = ds).
  { clear Htr. induction ds as [|d ds IH]; [reflexivity|].
    cbn [attempt_events sleep_times]. now rewrite IH. }
  assert (Hz : sleep_times
                 (match k with FellThrough => [] | _ => [EvCall] end
                  ++ terminal_events k (outcome_key r) last (counted w)) = [])
    by (destruct k; reflexivity).
  assert (Hds2 : sleep_times (new_events w w') = ds).
  { rewrite (new_events_app _ _ _ Htr). cbn [app sleep_times].
    rewrite sleep_times_app, Hst, Hz. apply app_nil_r. }
  assert (Hlen2 : Z.of_nat (length ds) = last - 1).
  { rewrite Htr, counted_trace in Hds.
    rewrite (sleep_times_app (trace w)) in Hds.
    rewrite (sleep_times_app (trace w)) in Hds.
    cbn [app sleep_times] in Hds.
    rewrite sleep_times_app, Hst, Hz, !app_nil_r in Hds.
    apply app_inv_head in Hds. subst ds'. lia. }
  exists r, w', ds. split; [exact Hret|]. split; [now symmetry|].
  rewrite (new_events_app _ _ _ Htr).
  destruct k; cbn beta iota in Hr.
  - right. destruct Hr as (v & es & ->). cbn [app terminal_events outcome_key].
    rewrite !counted_other by discriminate. rewrite Hlen2. reflexivity.
  - right. destruct Hr as (e & es & ->). cbn [app terminal_events outcome_key].
    rewrite !counted_other by discriminate. rewrite Hlen2. reflexivity.
  - right. destruct Hr as (e & -> & _). cbn [app terminal_events outcome_key].
    rewrite !counted_other by discriminate. rewrite Hlen2. reflexivity.
  - left. subst r. cbn [app terminal_events]. rewrite app_nil_r.
    split; reflexivity.
Qed.
